(** * pymaker/deployment.py: the address book of a Dai Stablecoin System deployment

    A shallow embedding of [DssDeployment] and [DssDeployment.Config]:
    the regular-expression inference of collaterals from the key set of
    an address book, the construction of contract handles from it
    ([from_json]), its serialisation ([to_dict], [to_json]) and the
    loading of an address book by network id ([from_node]).

    Python texts are [string]s of ASCII characters.  A call that leaves
    the file for the node or for a library of its own (the constructors of
    the contract classes, [Vat.ilk], [Address]) is taken to return: the
    exceptions of the model are the ones the code of this file raises. *)

From Stdlib Require Import String Ascii List Bool Arith Lia Permutation.
Import ListNotations.
Open Scope string_scope.

(** ** Python texts *)

Module Str.

(** [s.replace(a, b)] for one-character [a] and [b]. *)
Fixpoint replace (a b : ascii) (s : string) : string :=
  match s with
  | EmptyString => EmptyString
  | String c t => String (if Ascii.eqb c a then b else c) (replace a b t)
  end.

(** [s.startswith(p)]. *)
Fixpoint startswith (p s : string) : bool :=
  match p, s with
  | EmptyString, _ => true
  | String a p', String c s' => Ascii.eqb a c && startswith p' s'
  | String _ _, EmptyString => false
  end.

(** [s.endswith(c)] for a one-character [c]. *)
Fixpoint endswith_char (c : ascii) (s : string) : bool :=
  match s with
  | EmptyString => false
  | String a EmptyString => Ascii.eqb a c
  | String _ t => endswith_char c t
  end.

(** Every character of [s] satisfies [p]. *)
Fixpoint all (p : ascii -> bool) (s : string) : bool :=
  match s with
  | EmptyString => true
  | String c t => p c && all p t
  end.

(** Number of characters of [s] satisfying [p]. *)
Fixpoint count (p : ascii -> bool) (s : string) : nat :=
  match s with
  | EmptyString => 0
  | String c t => (if p c then 1 else 0) + count p t
  end.

End Str.

(** ** The fragment of Python's [re] the file uses

    Backtracking matching with greedy quantifiers, written with a success
    continuation: the continuation receives the text the expression
    consumed, the text that remains and the groups captured so far, and
    returning [None] makes the matcher try its next alternative. *)

Module Re.

(** [\w] on ASCII text: letters, digits and the underscore. *)
Definition is_word (c : ascii) : bool :=
  let n := nat_of_ascii c in
  (((48 <=? n) && (n <=? 57)) || ((65 <=? n) && (n <=? 90))
   || ((97 <=? n) && (n <=? 122)) || (n =? 95))%nat.
Arguments is_word : simpl never.

Inductive regex : Type :=
| Lit (s : string)                (* the characters of [s], literally *)
| WordPlus                        (* \w+ *)
| Seq (r1 r2 : regex)             (* r1 r2 *)
| Group (i : nat) (r : regex)     (* ( r ), the i-th capturing group *)
| Opt (r : regex).                (* (?: r )? *)

(** Captured groups, latest first. *)
Definition groups := list (nat * string).

(** [match.group(i)]; the empty text stands for a group that did not
    take part in the match. *)
Fixpoint group (g : groups) (i : nat) : string :=
  match g with
  | [] => EmptyString
  | (j, s) :: g' => if Nat.eqb i j then s else group g' i
  end.

Section Matcher.
Context {A : Type}.

(** A literal prefix. *)
Fixpoint lit (p s : string) (k : string -> option A) : option A :=
  match p with
  | EmptyString => k s
  | String a p' =>
      match s with
      | String c s' => if Ascii.eqb a c then lit p' s' k else None
      | EmptyString => None
      end
  end.

(** [\w*], longest first. *)
Fixpoint word_star (s : string) (k : string -> string -> option A)
  : option A :=
  match s with
  | String c t =>
      if is_word c then
        match word_star t (fun m rest => k (String c m) rest) with
        | Some x => Some x
        | None => k EmptyString s
        end
      else k EmptyString s
  | EmptyString => k EmptyString EmptyString
  end.

(** [\w+], longest first. *)
Definition word_plus (s : string) (k : string -> string -> option A)
  : option A :=
  match s with
  | String c t =>
      if is_word c then word_star t (fun m rest => k (String c m) rest)
      else None
  | EmptyString => None
  end.

Fixpoint rmatch (r : regex) (s : string) (g : groups)
  (k : string -> string -> groups -> option A) : option A :=
  match r with
  | Lit p => lit p s (fun rest => k p rest g)
  | WordPlus => word_plus s (fun m rest => k m rest g)
  | Seq r1 r2 =>
      rmatch r1 s g (fun m1 s1 g1 =>
        rmatch r2 s1 g1 (fun m2 s2 g2 => k (m1 ++ m2) s2 g2))
  | Group i r' => rmatch r' s g (fun m s' g' => k m s' ((i, m) :: g'))
  | Opt r' =>
      match rmatch r' s g k with
      | Some x => Some x
      | None => k EmptyString s g
      end
  end.
End Matcher.

(** A match of [r] at the start of [s]: its groups, group 0 being the
    whole match. *)
Definition match_here (r : regex) (s : string) : option groups :=
  rmatch r s [] (fun m _ g => Some ((0, m) :: g)).

(** [re.search(r, s)]: the match at the leftmost position that has one. *)
Fixpoint search (r : regex) (s : string) : option groups :=
  match match_here r s with
  | Some g => Some g
  | None =>
      match s with
      | EmptyString => None
      | String _ t => search r t
      end
  end.

End Re.

Import Re.

(** ** The three patterns of the source *)

(** [r'MCD_FLIP_((\w+)_\w+)'] *)
Definition re_flip_sub : regex :=
  Seq (Lit "MCD_FLIP_")
      (Group 1 (Seq (Group 2 WordPlus) (Seq (Lit "_") WordPlus))).

(** [r'MCD_FLIP_(\w+)'] *)
Definition re_flip : regex :=
  Seq (Lit "MCD_FLIP_") (Group 1 WordPlus).

(** [r'(\w+)(?:-\w+)?'] *)
Definition re_ilk : regex :=
  Seq (Group 1 WordPlus) (Opt (Seq (Lit "-") WordPlus)).

(** ** [DssDeployment.Config._infer_collaterals_from_addresses] *)

(** The body of the loop: what one key appends, if anything. *)
Definition infer_key (key : string) : option (string * string) :=
  match search re_flip_sub key with
  | Some m => Some (group m 1, group m 2)
  | None =>
      match search re_flip key with
      | Some m => Some (group m 1, group m 1)
      | None => None
      end
  end.

Definition _infer_collaterals_from_addresses (keys : list string)
  : list (string * string) :=
  fold_left
    (fun collaterals key =>
       match infer_key key with
       | Some name => (collaterals ++ [name])%list
       | None => collaterals
       end)
    keys [].

(** ** Python dictionaries, exceptions, paths and files *)

Module Dict.

(** A [dict] with text keys: the entries in insertion order, every key
    once. *)
Definition t (V : Type) : Type := list (string * V).

Definition keys {V} (d : t V) : list string := map fst d.
Definition values {V} (d : t V) : list V := map snd d.

(** [d.get(k)]. *)
Fixpoint get {V} (d : t V) (k : string) : option V :=
  match d with
  | [] => None
  | (k', v) :: d' => if String.eqb k k' then Some v else get d' k
  end.

(** [d[k] = v]: an existing key keeps its place, a new one goes last. *)
Fixpoint set {V} (d : t V) (k : string) (v : V) : t V :=
  match d with
  | [] => [(k, v)]
  | (k', v') :: d' =>
      if String.eqb k k' then (k', v) :: d' else (k', v') :: set d' k v
  end.

End Dict.

(** A run of assignments. *)
Definition assign (d : Dict.t string) (es : list (string * string))
  : Dict.t string :=
  fold_left (fun d e => Dict.set d (fst e) (snd e)) es d.

Inductive exception : Type :=
| KeyError (key : string)           (* conf[key] on an absent key *)
| AttributeError                    (* .group on a failed match *)
| JSONDecodeError                   (* json.loads on a text it rejects *)
| FileNotFoundError (path : string).

Inductive result (A : Type) : Type :=
| Ok (a : A)
| Raise (e : exception).
Arguments Ok {A} a.
Arguments Raise {A} e.

Definition bind {A B} (r : result A) (f : A -> result B) : result B :=
  match r with
  | Ok a => f a
  | Raise e => Raise e
  end.

Notation "x <- e ;; k" := (bind e (fun x => k))
  (at level 61, e at next level, right associativity).

(** [d[k]]. *)
Definition getitem {V} (d : Dict.t V) (k : string) : result V :=
  match Dict.get d k with
  | Some v => Ok v
  | None => Raise (KeyError k)
  end.

(** [os.path.join(a, *p)] of posixpath. *)
Definition path_join (a : string) (p : list string) : string :=
  fold_left
    (fun path b =>
       if Str.startswith "/" b then b
       else if (String.eqb path "" || Str.endswith_char "/" path)%bool
            then path ++ b
            else path ++ "/" ++ b)
    p a.

(** What the program sees of its host: the directory of the module file
    ([os.path.dirname(os.path.realpath(__file__))]) and the text files
    that can be opened. *)
Record Host : Type := {
  module_dir : string;
  read_file : string -> option string
}.

(** [open(path, "r").read()]: the text of the file, or
    [FileNotFoundError] when there is no such file.  The other failures
    of [open] (a directory, a file that may not be read, a text that does
    not decode) are not modelled. *)
Definition open_read (h : Host) (path : string) : result string :=
  match read_file h path with
  | Some text => Ok text
  | None => Raise (FileNotFoundError path)
  end.

(** What the program reads of a [Web3] instance: [web3.net.version]. *)
Record Web3 : Type := { net_version : string }.

(** The classes of contract handles the file instantiates. *)
Inductive contract : Type :=
| DSPause | Vat | Vow | Jug | Cat | Flapper | Flopper | Pot | DSToken
| DSEthToken | DaiJoin | GemJoin | GemJoin5 | Spotter | DSChief
| ShutdownModule | End_ | ProxyRegistry | DssProxyActionsDsr | CdpManager
| DsrManager | DSValue | OSM | Univ2LpOSM | Flipper.

(** Modelled from the spec: [pymaker.dss.Ilk] is not under src; of an
    ilk, "a collateral-type identifier", this file reads the name only. *)
Record Ilk : Type := { name : string }.

(** ** What the patterns give, in words

    The symbol of a run [n] of word characters: [n] up to its last
    underscore that has a character on each side, and [n] itself when
    it has no such underscore. *)

(** [cut t]: the longest split [t = p ++ "_" ++ q] with [q] not empty. *)
Fixpoint cut (t : string) : option (string * string) :=
  match t with
  | EmptyString => None
  | String c t' =>
      match cut t' with
      | Some (p, q) => Some (String c p, q)
      | None =>
          if Ascii.eqb c "_" then
            match t' with
            | EmptyString => None
            | String _ _ => Some (EmptyString, t')
            end
          else None
      end
  end.

(** The symbol of the run [n]. *)
Definition symbol_of (n : string) : string :=
  match n with
  | EmptyString => EmptyString
  | String c t =>
      match cut t with
      | Some (p, _) => String c p
      | None => n
      end
  end.

(** No character of [q] but its last is an underscore. *)
Fixpoint inner_free (q : string) : bool :=
  match q with
  | EmptyString => true
  | String c t =>
      match t with
      | EmptyString => true
      | String _ _ => negb (Ascii.eqb c "_") && inner_free t
      end
  end.

(** [post] does not go on with a word character. *)
Definition boundary (post : string) : bool :=
  match post with
  | EmptyString => true
  | String c _ => negb (is_word c)
  end.

(** What one key adds to the list of inferred names. *)
Definition contribution (key : string) : list (string * string) :=
  match infer_key key with
  | Some nm => [nm]
  | None => []
  end.

(** [c in s]. *)
Fixpoint mem (c : ascii) (s : string) : bool :=
  match s with
  | EmptyString => false
  | String a t => Ascii.eqb a c || mem c t
  end.

(** [s] up to its last occurrence of [c]. *)
Fixpoint before_last (c : ascii) (s : string) : string :=
  match s with
  | EmptyString => EmptyString
  | String a t => if mem c t then String a (before_last c t) else EmptyString
  end.

(** ** The naming convention of ilks: [SYM] or [SYM-SUB] *)

(** An underscore. *)
Definition is_us (c : ascii) : bool := Ascii.eqb c "_".

(** A letter or a digit. *)
Definition is_alnum (c : ascii) : bool := is_word c && negb (is_us c).

(** A symbol: letters and digits, at least one. *)
Definition is_symbol (s : string) : bool :=
  negb (String.eqb s "") && Str.all is_alnum s.

(** [n] before its first hyphen, and what follows that hyphen. *)
Fixpoint split_hyphen (n : string) : string * option string :=
  match n with
  | EmptyString => (EmptyString, None)
  | String c t =>
      if Ascii.eqb c "-" then (EmptyString, Some t)
      else let (a, b) := split_hyphen t in (String c a, b)
  end.

Definition before_hyphen (n : string) : string := fst (split_hyphen n).

(** [n] is [SYM] or [SYM-SUB], for symbols [SYM] and [SUB]. *)
Definition conventional (n : string) : bool :=
  is_symbol (before_hyphen n)
  && match snd (split_hyphen n) with
     | None => true
     | Some t => is_symbol t
     end.

(** The name starts with a run of word characters that its first hyphen,
    or its end, closes. *)
Definition wordy (n : string) : bool :=
  negb (String.eqb (before_hyphen n) "")
  && Str.all is_word (before_hyphen n).

(** ** The names [from_json] reads *)

Definition fixed_keys : list string :=
  [ "MCD_PAUSE"; "MCD_VAT"; "MCD_VOW"; "MCD_JUG"; "MCD_CAT"; "MCD_FLAP";
    "MCD_FLOP"; "MCD_POT"; "MCD_DAI"; "MCD_JOIN_DAI"; "MCD_GOV";
    "MCD_SPOT"; "MCD_ADM"; "MCD_ESM"; "MCD_END"; "PROXY_REGISTRY";
    "PROXY_ACTIONS_DSR"; "CDP_MANAGER"; "DSR_MANAGER" ].

(** The four names [from_json] reads for an inferred name. *)
Definition collateral_keys (nm : string * string) : list string :=
  [ snd nm; "MCD_JOIN_" ++ fst nm; "PIP_" ++ snd nm;
    "MCD_FLIP_" ++ fst nm ].

(** The names [from_json] reads from an address book. *)
Definition referenced (conf : Dict.t string) (k : string) : Prop :=
  In k fixed_keys
  \/ exists nm, In nm (_infer_collaterals_from_addresses (Dict.keys conf))
                /\ In k (collateral_keys nm).

(** The names the claim C4 lists. *)
Definition required (conf : Dict.t string) (k : string) : Prop :=
  In k fixed_keys
  \/ exists N S,
       In (N, S) (_infer_collaterals_from_addresses (Dict.keys conf))
       /\ (k = S \/ k = "MCD_JOIN_" ++ N \/ k = "PIP_" ++ S).

(** ** Lists of entries *)

(** No key is given two values. *)
Definition functional (es : list (string * string)) : Prop :=
  forall k v v', In (k, v) es -> In (k, v') es -> v = v'.

(** No name is given two different addresses. *)
Definition functionalb (es : list (string * string)) : bool :=
  forallb
    (fun e =>
       forallb
         (fun e' =>
            negb (String.eqb (fst e) (fst e'))
            || String.eqb (snd e) (snd e'))
         es)
    es.

(** No text occurs twice. *)
Fixpoint nodupb (l : list string) : bool :=
  match l with
  | [] => true
  | k :: t => negb (existsb (String.eqb k) t) && nodupb t
  end.

(** ** A JSON codec for address books

    An instance of the two functions of [json] the file calls: the writer
    gives the text [json.dumps] gives for a dictionary of printable
    texts, and the reader takes the texts of the writer back. *)

Module RefJson.

Definition dquote : ascii := ascii_of_nat 34.
Definition backslash : ascii := ascii_of_nat 92.

Definition special (c : ascii) : bool :=
  Ascii.eqb c dquote || Ascii.eqb c backslash.

Fixpoint escape (s : string) : string :=
  match s with
  | EmptyString => EmptyString
  | String c t =>
      if special c then String backslash (String c (escape t))
      else String c (escape t)
  end.

Definition quote (s : string) : string :=
  String dquote (escape s ++ String dquote EmptyString).

Definition item (e : string * string) : string :=
  quote (fst e) ++ ": " ++ quote (snd e).

Fixpoint items (d : list (string * string)) : string :=
  match d with
  | [] => EmptyString
  | e :: d' =>
      match d' with
      | [] => item e
      | _ :: _ => item e ++ ", " ++ items d'
      end
  end.

Definition dumps (d : Dict.t string) : string := "{" ++ items d ++ "}".

(** The text up to the closing quote, and what follows it. *)
Fixpoint read_string (s : string) : option (string * string) :=
  match s with
  | EmptyString => None
  | String c t =>
      if Ascii.eqb c dquote then Some (EmptyString, t)
      else if Ascii.eqb c backslash then
        match t with
        | String c' t' =>
            if special c' then
              match read_string t' with
              | Some (m, r) => Some (String c' m, r)
              | None => None
              end
            else None
        | EmptyString => None
        end
      else
        match read_string t with
        | Some (m, r) => Some (String c m, r)
        | None => None
        end
  end.

Definition read_quoted (s : string) : option (string * string) :=
  match s with
  | String c t => if Ascii.eqb c dquote then read_string t else None
  | EmptyString => None
  end.

(** [s] after the prefix [p]. *)
Fixpoint expect (p s : string) : option string :=
  match p with
  | EmptyString => Some s
  | String a p' =>
      match s with
      | String c s' => if Ascii.eqb a c then expect p' s' else None
      | EmptyString => None
      end
  end.

Definition read_item (s : string) : option ((string * string) * string) :=
  match read_quoted s with
  | Some (k, r) =>
      match expect ": " r with
      | Some r =>
          match read_quoted r with
          | Some (v, r) => Some ((k, v), r)
          | None => None
          end
      | None => None
      end
  | None => None
  end.

Fixpoint read_items (fuel : nat) (s : string)
  : option (list (string * string)) :=
  match fuel with
  | 0 => None
  | S fuel =>
      match read_item s with
      | Some (e, r) =>
          if String.eqb r "}" then Some [e]
          else
            match expect ", " r with
            | Some r =>
                match read_items fuel r with
                | Some d => Some (e :: d)
                | None => None
                end
            | None => None
            end
      | None => None
      end
  end.

Definition loads (s : string) : option (Dict.t string) :=
  match s with
  | String c t =>
      if Ascii.eqb c "{" then
        if String.eqb t "}" then Some []
        else
          match read_items (String.length t) t with
          | Some d => Some (assign [] d)
          | None => None
          end
      else None
  | EmptyString => None
  end.

End RefJson.

(** ** [DssDeployment] *)

Section Deployment.

#[local] Set Default Proof Using "Type".

(** Modelled from the spec: [pymaker.Address] is not under src.  The
    address book maps names to "on-chain addresses"; an address is built
    from its text and gives a text back. *)
Variable Address : Type.
Variable Address_of : string -> Address.      (* Address(text) *)
Variable address_str : Address -> string.     (* .address of an Address *)

(** Python's [json]: [json.loads] on the text of an address book ([None]
    on a text it rejects) and [json.dumps] on an address book.  A text
    that parses to something other than an object of texts is not
    modelled: the code raises [TypeError] on it at the first name it
    reads.  What is proved of a text assumes [json_loads text = Some
    conf]. *)
Variable json_loads : string -> option (Dict.t string).
Variable json_dumps : Dict.t string -> string.

(** A contract handle: what [C(web3, address)] keeps. *)
Record Handle : Type := {
  class : contract;
  web3 : Web3;
  address : Address
}.

(** [C(web3, address)] for a contract class [C]. *)
Definition new (c : contract) (w : Web3) (a : Address) : Handle :=
  {| class := c; web3 := w; address := a |}.

(** Modelled from the spec: [pymaker.dss.Vat.ilk] is not under src; it
    returns the ilk of the given name. *)
Definition Vat_ilk (vat : Handle) (n : string) : Ilk := {| name := n |}.

(** Modelled from the spec: [pymaker.dss.Collateral] is not under src;
    it is the "quadruple of (gem, adapter, price-feed, auction)" handles
    of an ilk.  [pip] is optional: [to_dict] tests it. *)
Record Collateral : Type := {
  ilk : Ilk;
  gem : Handle;
  adapter : Handle;
  flipper : Handle;
  pip : option Handle
}.

Record Config : Type := {
  pause : Handle;
  vat : Handle;
  vow : Handle;
  jug : Handle;
  cat : Handle;
  flapper : Handle;
  flopper : Handle;
  pot : Handle;
  dai : Handle;
  dai_join : Handle;
  mkr : Handle;
  spotter : Handle;
  ds_chief : Handle;
  esm : Handle;
  end_ : Handle;
  proxy_registry : Handle;
  dss_proxy_actions : Handle;
  cdp_manager : Handle;
  dsr_manager : Handle;
  collaterals : Dict.t Collateral
}.

(** [collaterals or {}] of [Config.__init__]: an empty dictionary for
    [None], and for an empty dictionary, which is one already. *)
Definition or_empty {V} (d : option (Dict.t V)) : Dict.t V :=
  match d with
  | Some d => d
  | None => []
  end.

(** [DssDeployment.NETWORKS] *)
Definition NETWORKS : Dict.t string :=
  [("1", "mainnet"); ("42", "kovan")].

(** [DssDeployment.NETWORKS.get(version, "testnet")] *)
Definition network_of (version : string) : string :=
  match Dict.get NETWORKS version with
  | Some n => n
  | None => "testnet"
  end.

(** The body of the loop of [from_json]: the collateral of one inferred
    name. *)
Definition collateral_of (w : Web3) (conf : Dict.t string) (vat : Handle)
    (name : string * string) : result Collateral :=
  let ilk := Vat_ilk vat (Str.replace "_" "-" (fst name)) in
  a <- getitem conf (snd name) ;;
  let gem :=
    if String.eqb (snd name) "ETH" then new DSEthToken w (Address_of a)
    else new DSToken w (Address_of a) in
  a <- getitem conf ("MCD_JOIN_" ++ fst name) ;;
  let adapter :=
    if existsb (String.eqb (snd name))
         ["USDC"; "WBTC"; "TUSD"; "USDT"; "GUSD"; "RENBTC"]
    then new GemJoin5 w (Address_of a)
    else new GemJoin w (Address_of a) in
  a <- getitem conf ("PIP_" ++ snd name) ;;
  let pip_address := Address_of a in
  let network := network_of (net_version w) in
  let pip :=
    if String.eqb network "testnet" then new DSValue w pip_address
    else if Str.startswith "UNIV2" (snd name)
         then new Univ2LpOSM w pip_address
         else new OSM w pip_address in
  a <- getitem conf ("MCD_FLIP_" ++ fst name) ;;
  Ok {| ilk := ilk; gem := gem; adapter := adapter;
        flipper := new Flipper w (Address_of a); pip := Some pip |}.

(** The loop of [from_json] over the inferred names. *)
Definition collaterals_of (w : Web3) (conf : Dict.t string) (vat : Handle)
    (names : list (string * string)) : result (Dict.t Collateral) :=
  fold_left
    (fun acc nm =>
       collaterals <- acc ;;
       collateral <- collateral_of w conf vat nm ;;
       Ok (Dict.set collaterals (name (ilk collateral)) collateral))
    names (Ok []).

(** [DssDeployment.Config.from_json] after [json.loads]. *)
Definition from_conf (w : Web3) (conf : Dict.t string) : result Config :=
  a <- getitem conf "MCD_PAUSE" ;; let pause := new DSPause w (Address_of a) in
  a <- getitem conf "MCD_VAT" ;; let vat := new Vat w (Address_of a) in
  a <- getitem conf "MCD_VOW" ;; let vow := new Vow w (Address_of a) in
  a <- getitem conf "MCD_JUG" ;; let jug := new Jug w (Address_of a) in
  a <- getitem conf "MCD_CAT" ;; let cat := new Cat w (Address_of a) in
  a <- getitem conf "MCD_DAI" ;; let dai := new DSToken w (Address_of a) in
  a <- getitem conf "MCD_JOIN_DAI" ;;
  let dai_adapter := new DaiJoin w (Address_of a) in
  a <- getitem conf "MCD_FLAP" ;;
  let flapper := new Flapper w (Address_of a) in
  a <- getitem conf "MCD_FLOP" ;;
  let flopper := new Flopper w (Address_of a) in
  a <- getitem conf "MCD_POT" ;; let pot := new Pot w (Address_of a) in
  a <- getitem conf "MCD_GOV" ;; let mkr := new DSToken w (Address_of a) in
  a <- getitem conf "MCD_SPOT" ;;
  let spotter := new Spotter w (Address_of a) in
  a <- getitem conf "MCD_ADM" ;;
  let ds_chief := new DSChief w (Address_of a) in
  a <- getitem conf "MCD_ESM" ;;
  let esm := new ShutdownModule w (Address_of a) in
  a <- getitem conf "MCD_END" ;; let end_ := new End_ w (Address_of a) in
  a <- getitem conf "PROXY_REGISTRY" ;;
  let proxy_registry := new ProxyRegistry w (Address_of a) in
  a <- getitem conf "PROXY_ACTIONS_DSR" ;;
  let dss_proxy_actions := new DssProxyActionsDsr w (Address_of a) in
  a <- getitem conf "CDP_MANAGER" ;;
  let cdp_manager := new CdpManager w (Address_of a) in
  a <- getitem conf "DSR_MANAGER" ;;
  let dsr_manager := new DsrManager w (Address_of a) in
  collaterals <-
    collaterals_of w conf vat
      (_infer_collaterals_from_addresses (Dict.keys conf)) ;;
  Ok {| pause := pause; vat := vat; vow := vow; jug := jug; cat := cat;
        flapper := flapper; flopper := flopper; pot := pot; dai := dai;
        dai_join := dai_adapter; mkr := mkr; spotter := spotter;
        ds_chief := ds_chief; esm := esm; end_ := end_;
        proxy_registry := proxy_registry;
        dss_proxy_actions := dss_proxy_actions;
        cdp_manager := cdp_manager; dsr_manager := dsr_manager;
        collaterals := or_empty (Some collaterals) |}.

(** [DssDeployment.Config.from_json] *)
Definition from_json (w : Web3) (conf : string) : result Config :=
  match json_loads conf with
  | Some conf => from_conf w conf
  | None => Raise JSONDecodeError
  end.

(** [h.address.address] *)
Definition addr (h : Handle) : string := address_str (address h).

(** The dictionary literal that opens [to_dict]. *)
Definition fixed_dict (c : Config) : Dict.t string :=
  [ ("MCD_PAUSE", addr (pause c));
    ("MCD_VAT", addr (vat c));
    ("MCD_VOW", addr (vow c));
    ("MCD_JUG", addr (jug c));
    ("MCD_CAT", addr (cat c));
    ("MCD_FLAP", addr (flapper c));
    ("MCD_FLOP", addr (flopper c));
    ("MCD_POT", addr (pot c));
    ("MCD_DAI", addr (dai c));
    ("MCD_JOIN_DAI", addr (dai_join c));
    ("MCD_GOV", addr (mkr c));
    ("MCD_SPOT", addr (spotter c));
    ("MCD_ADM", addr (ds_chief c));
    ("MCD_ESM", addr (esm c));
    ("MCD_END", addr (end_ c));
    ("PROXY_REGISTRY", addr (proxy_registry c));
    ("PROXY_ACTIONS_DSR", addr (dss_proxy_actions c));
    ("CDP_MANAGER", addr (cdp_manager c));
    ("DSR_MANAGER", addr (dsr_manager c)) ].

(** The body of the loop of [to_dict]: the entries of one collateral. *)
Definition put_collateral (conf_dict : Dict.t string)
    (collateral : Collateral) : result (Dict.t string) :=
  match search re_ilk (name (ilk collateral)) with
  | None => Raise AttributeError
  | Some m =>
      let name :=
        (Str.replace "-" "_" (name (ilk collateral)), group m 1) in
      let conf_dict :=
        Dict.set conf_dict (snd name) (addr (gem collateral)) in
      let conf_dict :=
        match pip collateral with
        | Some p => Dict.set conf_dict ("PIP_" ++ snd name) (addr p)
        | None => conf_dict
        end in
      let conf_dict :=
        Dict.set conf_dict ("MCD_JOIN_" ++ fst name)
          (addr (adapter collateral)) in
      Ok (Dict.set conf_dict ("MCD_FLIP_" ++ fst name)
            (addr (flipper collateral)))
  end.

(** [DssDeployment.Config.to_dict] *)
Definition to_dict (c : Config) : result (Dict.t string) :=
  fold_left
    (fun acc collateral =>
       conf_dict <- acc ;; put_collateral conf_dict collateral)
    (Dict.values (collaterals c)) (Ok (fixed_dict c)).

(** [DssDeployment.Config.to_json] *)
Definition to_json (c : Config) : result string :=
  conf_dict <- to_dict c ;; Ok (json_dumps conf_dict).

(** The fields [DssDeployment.__init__] sets. *)
Record DssDeployment : Type := {
  d_web3 : Web3;
  d_config : Config;
  d_pause : Handle;
  d_vat : Handle;
  d_vow : Handle;
  d_jug : Handle;
  d_cat : Handle;
  d_flapper : Handle;
  d_flopper : Handle;
  d_pot : Handle;
  d_dai : Handle;
  d_dai_adapter : Handle;
  d_mkr : Handle;
  d_collaterals : Dict.t Collateral;
  d_spotter : Handle;
  d_ds_chief : Handle;
  d_esm : Handle;
  d_end : Handle;
  d_proxy_registry : Handle;
  d_dss_proxy_actions : Handle;
  d_cdp_manager : Handle;
  d_dsr_manager : Handle
}.

(** [DssDeployment.__init__] *)
Definition DssDeployment_init (w : Web3) (config : Config)
  : DssDeployment :=
  {| d_web3 := w;
     d_config := config;
     d_pause := pause config;
     d_vat := vat config;
     d_vow := vow config;
     d_jug := jug config;
     d_cat := cat config;
     d_flapper := flapper config;
     d_flopper := flopper config;
     d_pot := pot config;
     d_dai := dai config;
     d_dai_adapter := dai_join config;
     d_mkr := mkr config;
     d_collaterals := collaterals config;
     d_spotter := spotter config;
     d_ds_chief := ds_chief config;
     d_esm := esm config;
     d_end := end_ config;
     d_proxy_registry := proxy_registry config;
     d_dss_proxy_actions := dss_proxy_actions config;
     d_cdp_manager := cdp_manager config;
     d_dsr_manager := dsr_manager config |}.

(** [DssDeployment.from_json] *)
Definition DssDeployment_from_json (w : Web3) (conf : string)
  : result DssDeployment :=
  config <- from_json w conf ;; Ok (DssDeployment_init w config).

(** [DssDeployment.to_json] *)
Definition DssDeployment_to_json (d : DssDeployment) : result string :=
  to_json (d_config d).

(** [DssDeployment.from_network] *)
Definition from_network (h : Host) (w : Web3) (network : string)
  : result DssDeployment :=
  let cwd := module_dir h in
  let addresses_path :=
    path_join cwd ["../config"; network ++ "-addresses.json"] in
  conf <- open_read h addresses_path ;;
  DssDeployment_from_json w conf.

(** [DssDeployment.from_node] *)
Definition from_node (h : Host) (w : Web3) : result DssDeployment :=
  let network := network_of (net_version w) in
  from_network h w network.

(** [from_json(web3, c.to_json())] *)
Definition round_trip (w : Web3) (c : Config) : result Config :=
  conf <- to_json c ;; from_json w conf.

(** ** The address book of a configuration, in words

    The nineteen fixed names, and for every collateral of ilk name [n],
    with [s] the text of [n] before its first hyphen and [u] the name
    with its hyphens written as underscores: [s], [PIP_s] when there is a
    price feed, [MCD_JOIN_u] and [MCD_FLIP_u]. *)

(** The fixed handles of a configuration under their names. *)
Definition fixed_handles (c : Config) : list (string * Handle) :=
  [ ("MCD_PAUSE", pause c); ("MCD_VAT", vat c); ("MCD_VOW", vow c);
    ("MCD_JUG", jug c); ("MCD_CAT", cat c); ("MCD_FLAP", flapper c);
    ("MCD_FLOP", flopper c); ("MCD_POT", pot c); ("MCD_DAI", dai c);
    ("MCD_JOIN_DAI", dai_join c); ("MCD_GOV", mkr c);
    ("MCD_SPOT", spotter c); ("MCD_ADM", ds_chief c); ("MCD_ESM", esm c);
    ("MCD_END", end_ c); ("PROXY_REGISTRY", proxy_registry c);
    ("PROXY_ACTIONS_DSR", dss_proxy_actions c);
    ("CDP_MANAGER", cdp_manager c); ("DSR_MANAGER", dsr_manager c) ].

(** The entries of one collateral. *)
Definition collateral_entries (col : Collateral) : list (string * string) :=
  let n := name (ilk col) in
  let s := before_hyphen n in
  let u := Str.replace "-" "_" n in
  (s, addr (gem col))
    :: app match pip col with
           | Some p => [("PIP_" ++ s, addr p)]
           | None => []
           end
           [("MCD_JOIN_" ++ u, addr (adapter col));
            ("MCD_FLIP_" ++ u, addr (flipper col))].

(** The entries of the address book, in the order [to_dict] writes
    them. *)
Definition all_entries (c : Config) : list (string * string) :=
  (fixed_dict c
     ++ flat_map collateral_entries (Dict.values (collaterals c)))%list.

(** The handles of [col] are at the addresses the book gives under the
    four names of [nm]. *)
Definition quadruple_of (conf : Dict.t string) (nm : string * string)
    (col : Collateral) : Prop :=
  option_map Address_of (Dict.get conf (snd nm))
    = Some (address (gem col))
  /\ option_map Address_of (Dict.get conf ("MCD_JOIN_" ++ fst nm))
     = Some (address (adapter col))
  /\ (exists p, pip col = Some p
                /\ option_map Address_of (Dict.get conf ("PIP_" ++ snd nm))
                   = Some (address p))
  /\ option_map Address_of (Dict.get conf ("MCD_FLIP_" ++ fst nm))
     = Some (address (flipper col)).

(** The loop of [from_json], from any table. *)
Definition collaterals_loop (w : Web3) (conf : Dict.t string)
    (vt : Handle) (names : list (string * string))
    (acc : result (Dict.t Collateral)) : result (Dict.t Collateral) :=
  fold_left
    (fun acc nm =>
       collaterals <- acc ;;
       collateral <- collateral_of w conf vt nm ;;
       Ok (Dict.set collaterals (name (ilk collateral)) collateral))
    names acc.

(** ** Configurations that follow the naming convention *)

(** [if collateral.pip] *)
Definition has_pip (col : Collateral) : bool :=
  match pip col with
  | Some _ => true
  | None => false
  end.

(** The collaterals are stored under their ilk names, and these names
    are [SYM] or [SYM-SUB]. *)
Definition follows_convention (c : Config) : bool :=
  nodupb (Dict.keys (collaterals c))
  && forallb
       (fun e =>
          String.eqb (fst e) (name (ilk (snd e)))
          && conventional (name (ilk (snd e))))
       (collaterals c).

(** The configuration follows the convention, every collateral has a
    price feed, and the address book gives no name two different
    addresses. *)
Definition well_formed (c : Config) : bool :=
  follows_convention c
  && forallb has_pip (Dict.values (collaterals c))
  && functionalb (all_entries c).

(** Some collateral has the symbol [s], and no collateral of that
    symbol has a price feed. *)
Definition symbol_without_feed (c : Config) (s : string) : bool :=
  existsb
    (fun col => String.eqb (before_hyphen (name (ilk col))) s)
    (Dict.values (collaterals c))
  && forallb
       (fun col =>
          negb (String.eqb (before_hyphen (name (ilk col))) s)
          || negb (has_pip col))
       (Dict.values (collaterals c)).

(** ** Equivalent configurations *)

Definition same_quadruple (a b : Collateral) : Prop :=
  name (ilk a) = name (ilk b)
  /\ address (gem a) = address (gem b)
  /\ address (adapter a) = address (adapter b)
  /\ option_map address (pip a) = option_map address (pip b)
  /\ address (flipper a) = address (flipper b).

Definition same_fixed (a b : Config) : Prop :=
  address (pause a) = address (pause b)
  /\ address (vat a) = address (vat b)
  /\ address (vow a) = address (vow b)
  /\ address (jug a) = address (jug b)
  /\ address (cat a) = address (cat b)
  /\ address (flapper a) = address (flapper b)
  /\ address (flopper a) = address (flopper b)
  /\ address (pot a) = address (pot b)
  /\ address (dai a) = address (dai b)
  /\ address (dai_join a) = address (dai_join b)
  /\ address (mkr a) = address (mkr b)
  /\ address (spotter a) = address (spotter b)
  /\ address (ds_chief a) = address (ds_chief b)
  /\ address (esm a) = address (esm b)
  /\ address (end_ a) = address (end_ b)
  /\ address (proxy_registry a) = address (proxy_registry b)
  /\ address (dss_proxy_actions a) = address (dss_proxy_actions b)
  /\ address (cdp_manager a) = address (cdp_manager b)
  /\ address (dsr_manager a) = address (dsr_manager b).

Definition same_collaterals (a b : Config) : Prop :=
  forall n,
    match Dict.get (collaterals a) n, Dict.get (collaterals b) n with
    | Some x, Some y => same_quadruple x y
    | None, None => True
    | _, _ => False
    end.

Definition equivalent (a b : Config) : Prop :=
  same_fixed a b /\ same_collaterals a b.

(** ** What [to_dict] writes, for any configuration *)

(** [n] from its first word character on. *)
Fixpoint skip_nonword (n : string) : string :=
  match n with
  | EmptyString => EmptyString
  | String c t => if is_word c then n else skip_nonword t
  end.

(** The run of word characters [n] starts with. *)
Fixpoint word_run (n : string) : string :=
  match n with
  | EmptyString => EmptyString
  | String c t => if is_word c then String c (word_run t) else EmptyString
  end.

(** The first run of word characters of [n]; empty when [n] has no word
    character. *)
Definition first_word (n : string) : string := word_run (skip_nonword n).

(** The entries [to_dict] writes for one collateral, in order. *)
Definition written_entries (col : Collateral) : list (string * string) :=
  let s := first_word (name (ilk col)) in
  let u := Str.replace "-" "_" (name (ilk col)) in
  (s, addr (gem col))
    :: app match pip col with
           | Some p => [("PIP_" ++ s, addr p)]
           | None => []
           end
           [("MCD_JOIN_" ++ u, addr (adapter col));
            ("MCD_FLIP_" ++ u, addr (flipper col))].

(** The entries [to_dict] writes, in order. *)
Definition written (c : Config) : list (string * string) :=
  (fixed_dict c
     ++ flat_map written_entries (Dict.values (collaterals c)))%list.

(** The ilk name of [col] has no word character. *)
Definition nameless (col : Collateral) : bool :=
  Str.all (fun ch => negb (is_word ch)) (name (ilk col)).

(** The last entry of [es] under the key [k]. *)
Definition last_written (es : list (string * string)) (k : string)
  : option string :=
  option_map snd (find (fun e => String.eqb (fst e) k) (rev es)).

(** ** The names [from_json] reads, in the order it reads them *)

(** The fixed names, as the body of [from_json] reads them. *)
Definition read_order : list string :=
  [ "MCD_PAUSE"; "MCD_VAT"; "MCD_VOW"; "MCD_JUG"; "MCD_CAT"; "MCD_DAI";
    "MCD_JOIN_DAI"; "MCD_FLAP"; "MCD_FLOP"; "MCD_POT"; "MCD_GOV";
    "MCD_SPOT"; "MCD_ADM"; "MCD_ESM"; "MCD_END"; "PROXY_REGISTRY";
    "PROXY_ACTIONS_DSR"; "CDP_MANAGER"; "DSR_MANAGER" ].

(** The fixed names, then the four names of each inferred name. *)
Definition reads (conf : Dict.t string) : list string :=
  (read_order
     ++ flat_map collateral_keys
          (_infer_collaterals_from_addresses (Dict.keys conf)))%list.

(** [k not in conf] *)
Definition absent (conf : Dict.t string) (k : string) : bool :=
  match Dict.get conf k with
  | Some _ => false
  | None => true
  end.

(** The first name [from_json] reads that the book does not have. *)
Definition first_missing (conf : Dict.t string) : option string :=
  find (absent conf) (reads conf).

(** ** The classes of the handles of a collateral *)

(** The class of the gem of symbol [s]. *)
Definition gem_class (s : string) : contract :=
  if String.eqb s "ETH" then DSEthToken else DSToken.

(** The class of the adapter of symbol [s]. *)
Definition adapter_class (s : string) : contract :=
  if existsb (String.eqb s)
       ["USDC"; "WBTC"; "TUSD"; "USDT"; "GUSD"; "RENBTC"]
  then GemJoin5 else GemJoin.

(** The class of the price feed of symbol [s] on the network of id
    [version]. *)
Definition pip_class (version s : string) : contract :=
  if (String.eqb version "1" || String.eqb version "42")%bool then
    if Str.startswith "UNIV2" s then Univ2LpOSM else OSM
  else DSValue.

(** The classes of the fixed handles, in the order of [fixed_handles]. *)
Definition fixed_classes : list contract :=
  [ DSPause; Vat; Vow; Jug; Cat; Flapper; Flopper; Pot; DSToken; DaiJoin;
    DSToken; Spotter; DSChief; ShutdownModule; End_; ProxyRegistry;
    DssProxyActionsDsr; CdpManager; DsrManager ].

(** ** Address books with simple ilk-parts *)

(** Every inferred ilk-part is [SYM] or [SYM_SUB]. *)
Definition simple_names (conf : Dict.t string) : bool :=
  forallb
    (fun nm => conventional (Str.replace "_" "-" (fst nm)))
    (_infer_collaterals_from_addresses (Dict.keys conf)).

(** The text of the address built from the text [a]. *)
Definition normal (a : string) : string := address_str (Address_of a).

(** ** [DssDeployment.active_auctions] and [DssDeployment.__repr__] *)

Section Auctions.

(** Modelled from the spec: [active_auctions()] of the auction contracts
    ([pymaker.auctions]) is not under src; it reads the auctions of a
    contract from the node, and is taken as a function of the handle. *)
Variable Auctions : Type.
Variable auctions_of : Handle -> Auctions.

(** The dictionary [active_auctions] returns, under its three names. *)
Record ActiveAuctions : Type := {
  flips : Dict.t Auctions;
  flaps : Auctions;
  flops : Auctions
}.

(** [DssDeployment.active_auctions] *)
Definition active_auctions (d : DssDeployment) : ActiveAuctions :=
  let flips :=
    fold_left
      (fun flips collateral =>
         Dict.set flips (name (ilk collateral))
           (auctions_of (flipper collateral)))
      (Dict.values (d_collaterals d)) [] in
  {| flips := flips;
     flaps := auctions_of (d_flapper d);
     flops := auctions_of (d_flopper d) |}.

End Auctions.

Arguments flips {Auctions} _.
Arguments flaps {Auctions} _.
Arguments flops {Auctions} _.
Arguments active_auctions {Auctions} auctions_of d.

(** [DssDeployment.__repr__] *)
Definition DssDeployment_repr (d : DssDeployment) : result string :=
  json <- to_json (d_config d) ;; Ok ("DssDeployment(" ++ json ++ ")").

(** ** Sample configurations *)

Definition sample_web3 : Web3 := {| net_version := "1" |}.

Definition sample_handle (c : contract) (a : string) : Handle :=
  new c sample_web3 (Address_of a).

Definition sample_collateral (n g a f : string) (p : option string)
  : Collateral :=
  {| ilk := {| name := n |};
     gem := sample_handle DSToken g;
     adapter := sample_handle GemJoin a;
     flipper := sample_handle Flipper f;
     pip := option_map (sample_handle OSM) p |}.

Definition sample_config (cols : list Collateral) : Config :=
  {| pause := sample_handle DSPause "0x01";
     vat := sample_handle Vat "0x02";
     vow := sample_handle Vow "0x03";
     jug := sample_handle Jug "0x04";
     cat := sample_handle Cat "0x05";
     flapper := sample_handle Flapper "0x06";
     flopper := sample_handle Flopper "0x07";
     pot := sample_handle Pot "0x08";
     dai := sample_handle DSToken "0x09";
     dai_join := sample_handle DaiJoin "0x0a";
     mkr := sample_handle DSToken "0x0b";
     spotter := sample_handle Spotter "0x0c";
     ds_chief := sample_handle DSChief "0x0d";
     esm := sample_handle ShutdownModule "0x0e";
     end_ := sample_handle End_ "0x0f";
     proxy_registry := sample_handle ProxyRegistry "0x10";
     dss_proxy_actions := sample_handle DssProxyActionsDsr "0x11";
     cdp_manager := sample_handle CdpManager "0x12";
     dsr_manager := sample_handle DsrManager "0x13";
     collaterals := map (fun col => (name (ilk col), col)) cols |}.

(** Three ilks of two tokens, each with its price feed. *)
Definition sample_book : Config :=
  sample_config
    [ sample_collateral "ETH-A" "0xe0" "0xa1" "0xf1" (Some "0xb0");
      sample_collateral "ETH-B" "0xe0" "0xa2" "0xf2" (Some "0xb0");
      sample_collateral "SAI" "0xe1" "0xa3" "0xf3" (Some "0xb1") ].

(** One ilk, without a price feed. *)
Definition sample_no_feed : Config :=
  sample_config [ sample_collateral "ETH-A" "0xe0" "0xa1" "0xf1" None ].

(** Two ilks of one token; the second has no price feed. *)
Definition sample_shared_feed : Config :=
  sample_config
    [ sample_collateral "ETH-A" "0xe0" "0xa1" "0xf1" (Some "0xb0");
      sample_collateral "ETH-B" "0xe0" "0xa2" "0xf2" None ].

(** Two ilks of one token with different price feeds. *)
Definition sample_two_feeds : Config :=
  sample_config
    [ sample_collateral "ETH-A" "0xe0" "0xa1" "0xf1" (Some "0xb0");
      sample_collateral "ETH-B" "0xe0" "0xa2" "0xf2" (Some "0xb1") ].


(** ** Lemmas on the matcher *)

Lemma lit_sound {A} (p s : string) (k : string -> option A) x :
  lit p s k = Some x -> exists rest, s = p ++ rest /\ k rest = Some x.
Proof.
  revert s. induction p as [|a p IH]; intros s H; simpl in *.
  - exists s. auto.
  - destruct s as [|c s]; [discriminate|].
    destruct (Ascii.eqb a c) eqn:E; [|discriminate].
    apply Ascii.eqb_eq in E. subst c.
    destruct (IH _ H) as (rest & -> & Hk). exists rest. auto.
Qed.

Lemma lit_app {A} (p s : string) (k : string -> option A) :
  lit p (p ++ s) k = k s.
Proof.
  induction p as [|a p IH]; simpl; [reflexivity|].
  rewrite Ascii.eqb_refl. exact IH.
Qed.

Lemma word_star_sound {A} (s : string) (k : string -> string -> option A) x :
  word_star s k = Some x ->
  exists m rest, s = m ++ rest /\ Str.all is_word m = true
                 /\ k m rest = Some x.
Proof.
  revert k. induction s as [|c t IH]; intros k H; simpl in H.
  - exists "", "". auto.
  - destruct (is_word c) eqn:W.
    + destruct (word_star t _) eqn:E.
      * inversion H; subst. destruct (IH _ E) as (m & rest & -> & Hm & Hk).
        exists (String c m), rest. simpl. rewrite W, Hm. auto.
      * exists "", (String c t). auto.
    + exists "", (String c t). auto.
Qed.

Lemma word_plus_sound {A} (s : string) (k : string -> string -> option A) x :
  word_plus s k = Some x ->
  exists m rest, s = m ++ rest /\ Str.all is_word m = true /\ m <> ""
                 /\ k m rest = Some x.
Proof.
  unfold word_plus. destruct s as [|c t]; [discriminate|].
  destruct (is_word c) eqn:W; [|discriminate]. intros H.
  destruct (word_star_sound _ _ _ H) as (m & rest & -> & Hm & Hk).
  exists (String c m), rest. simpl. rewrite W, Hm.
  repeat split; auto. discriminate.
Qed.

(** When the continuation accepts every split, the longest one is
    taken. *)
Lemma word_star_total {A} (n post : string) (f : string -> string -> A) :
  Str.all is_word n = true -> boundary post = true ->
  word_star (n ++ post) (fun m rest => Some (f m rest)) = Some (f n post).
Proof.
  revert f. induction n as [|c t IH]; intros f Hn Hp.
  - destruct post as [|d post]; [reflexivity|].
    simpl in *. apply negb_true_iff in Hp. now rewrite Hp.
  - simpl in *. apply andb_true_iff in Hn as [W Ht]. rewrite W.
    now rewrite (IH (fun m rest => f (String c m) rest) Ht Hp).
Qed.

Lemma word_plus_total {A} (n post : string) (f : string -> string -> A) :
  Str.all is_word n = true -> boundary post = true ->
  word_plus (n ++ post) (fun m rest => Some (f m rest)) =
  match n with
  | EmptyString => None
  | String _ _ => Some (f n post)
  end.
Proof.
  intros Hn Hp. unfold word_plus. destruct n as [|c t].
  - destruct post as [|d post]; [reflexivity|].
    simpl in *. apply negb_true_iff in Hp. now rewrite Hp.
  - simpl in *. apply andb_true_iff in Hn as [W Ht]. rewrite W.
    now rewrite (word_star_total t post (fun m rest => f (String c m) rest)).
Qed.

(** Every text is a run of word characters followed by a boundary. *)
Lemma word_span (s : string) :
  exists n post, s = n ++ post /\ Str.all is_word n = true
                 /\ boundary post = true.
Proof.
  induction s as [|c t (n & post & -> & Hn & Hp)].
  - exists "", "". auto.
  - destruct (is_word c) eqn:W.
    + exists (String c n), post. simpl. rewrite W, Hn. auto.
    + exists "", (String c (n ++ post)). simpl. rewrite W. auto.
Qed.

(** [\w*] followed by [_\w+], on a run of word characters: the split
    is the one [cut] gives. *)
Lemma word_star_cut {A} (t post : string)
    (F : string -> string -> string -> A) :
  Str.all is_word t = true -> boundary post = true ->
  word_star (t ++ post)
    (fun m r =>
       lit "_" r (fun r3 =>
         word_plus r3 (fun m3 r4 => Some (F m m3 r4)))) =
  match cut t with
  | Some (p, q) => Some (F p q post)
  | None => None
  end.
Proof.
  revert F. induction t as [|c t IH]; intros F Ht Hp.
  - destruct post as [|d post]; [reflexivity|].
    cbn [boundary] in Hp. apply negb_true_iff in Hp.
    cbn [append word_star cut]. rewrite Hp. cbn [lit].
    destruct (Ascii.eqb "_" d) eqn:E; [|reflexivity].
    apply Ascii.eqb_eq in E. subst d. discriminate.
  - simpl in Ht. apply andb_true_iff in Ht as [W Ht].
    cbn [append word_star cut]. rewrite W.
    rewrite (IH (fun m => F (String c m)) Ht Hp).
    destruct (cut t) as [[p q]|]; [reflexivity|].
    cbn [lit]. rewrite (Ascii.eqb_sym "_" c).
    destruct (Ascii.eqb c "_"); [|reflexivity].
    rewrite (word_plus_total t post (F "") Ht Hp).
    destruct t; reflexivity.
Qed.

Lemma cut_sound (t p q : string) :
  cut t = Some (p, q) -> t = p ++ "_" ++ q /\ q <> "".
Proof.
  revert p q. induction t as [|c t IH]; intros p q H; simpl in H.
  - discriminate.
  - destruct (cut t) as [[p' q']|].
    + inversion H; subst. destruct (IH _ _ eq_refl) as [-> Hq]. auto.
    + destruct (Ascii.eqb c "_") eqn:E; [|discriminate].
      apply Ascii.eqb_eq in E. subst c.
      destruct t; inversion H; subst. split; [reflexivity|discriminate].
Qed.

(** The two collateral patterns at the start of a text that goes on
    with the literal and a run [n] of word characters. *)
Lemma match_here_flip_sub (n post : string) :
  Str.all is_word n = true -> boundary post = true ->
  match_here re_flip_sub ("MCD_FLIP_" ++ n ++ post) =
  match n with
  | EmptyString => None
  | String c t =>
      match cut t with
      | Some (p, q) =>
          Some [(0, "MCD_FLIP_" ++ String c p ++ "_" ++ q);
                (1, String c p ++ "_" ++ q); (2, String c p)]
      | None => None
      end
  end.
Proof.
  intros Hn Hp. unfold match_here, re_flip_sub. cbn [rmatch].
  rewrite lit_app. unfold word_plus at 1. destruct n as [|c t].
  - destruct post as [|d post]; [reflexivity|].
    simpl in *. apply negb_true_iff in Hp. now rewrite Hp.
  - simpl in Hn. apply andb_true_iff in Hn as [W Ht].
    cbn [append]. rewrite W.
    exact (word_star_cut t post
             (fun m m3 _ =>
                [(0, "MCD_FLIP_" ++ String c m ++ "_" ++ m3);
                 (1, String c m ++ "_" ++ m3); (2, String c m)]) Ht Hp).
Qed.

Lemma match_here_flip (n post : string) :
  Str.all is_word n = true -> boundary post = true ->
  match_here re_flip ("MCD_FLIP_" ++ n ++ post) =
  match n with
  | EmptyString => None
  | String _ _ => Some [(0, "MCD_FLIP_" ++ n); (1, n)]
  end.
Proof.
  intros Hn Hp. unfold match_here, re_flip. cbn [rmatch].
  rewrite lit_app.
  apply (word_plus_total n post
           (fun m _ => [(0, "MCD_FLIP_" ++ m); (1, m)]) Hn Hp).
Qed.

(** Both patterns start with the literal. *)
Lemma match_here_flip_sub_lit (s : string) g :
  match_here re_flip_sub s = Some g -> exists r, s = "MCD_FLIP_" ++ r.
Proof.
  unfold match_here, re_flip_sub. cbn [rmatch]. intros H.
  apply lit_sound in H as (r & -> & _). now exists r.
Qed.

Lemma match_here_flip_lit (s : string) g :
  match_here re_flip s = Some g ->
  exists c r, s = "MCD_FLIP_" ++ String c r /\ is_word c = true.
Proof.
  unfold match_here, re_flip. cbn [rmatch]. intros H.
  apply lit_sound in H as (r & -> & H).
  apply word_plus_sound in H as (m & rest & -> & Hm & Hne & _).
  destruct m as [|c m]; [congruence|]. simpl in Hm.
  apply andb_true_iff in Hm as [W _]. now exists c, (m ++ rest).
Qed.

(** ** Lemmas on [search] *)

Lemma search_here (r : regex) (s : string) g :
  match_here r s = Some g -> search r s = Some g.
Proof. intros H. destruct s; simpl; now rewrite H. Qed.

Lemma search_skip (r : regex) (c : ascii) (t : string) :
  match_here r (String c t) = None -> search r (String c t) = search r t.
Proof. intros H. simpl. now rewrite H. Qed.

Lemma search_sound (r : regex) (s : string) g :
  search r s = Some g ->
  exists pre t, s = pre ++ t /\ match_here r t = Some g.
Proof.
  induction s as [|c s IH]; simpl.
  - destruct (match_here r "") eqn:E; [|discriminate].
    intros H. inversion H; subst. now exists "", "".
  - destruct (match_here r (String c s)) eqn:E.
    + intros H. inversion H; subst. now exists "", (String c s).
    + intros H. destruct (IH H) as (pre & t & -> & Ht).
      now exists (String c pre), t.
Qed.

Lemma search_none (r : regex) (pre t : string) :
  search r (pre ++ t) = None -> match_here r t = None.
Proof.
  induction pre as [|c pre IH]; simpl.
  - destruct t; simpl; destruct (match_here r _); congruence.
  - destruct (match_here r (String c (pre ++ t))); [discriminate|].
    exact IH.
Qed.

(** ** What one key contributes *)

Lemma infer_key_spec (key n s : string) :
  infer_key key = Some (n, s) ->
  exists pre post,
    key = pre ++ "MCD_FLIP_" ++ n ++ post /\ n <> ""
    /\ Str.all is_word n = true /\ boundary post = true
    /\ s = symbol_of n.
Proof.
  unfold infer_key. destruct (search re_flip_sub key) as [g|] eqn:E1.
  - intros H. inversion H; subst; clear H.
    apply search_sound in E1 as (pre & t & -> & Ht).
    destruct (match_here_flip_sub_lit _ _ Ht) as (r & ->).
    destruct (word_span r) as (n & post & -> & Hn & Hp).
    rewrite (match_here_flip_sub n post Hn Hp) in Ht.
    destruct n as [|c t]; [discriminate|].
    destruct (cut t) as [[p q]|] eqn:C; [|discriminate].
    inversion Ht; subst; clear Ht. cbn [group Nat.eqb].
    assert (Hs : String c p = symbol_of (String c t))
      by (unfold symbol_of; now rewrite C).
    rewrite Hs. apply cut_sound in C as [Hc _].
    simpl in Hc. rewrite <- Hc.
    exists pre, post. repeat split; auto; discriminate.
  - destruct (search re_flip key) as [g|] eqn:E2; [|discriminate].
    intros H. inversion H; subst; clear H.
    apply search_sound in E2 as (pre & t & -> & Ht).
    apply search_none in E1.
    destruct (match_here_flip_lit _ _ Ht) as (c & r & -> & _).
    destruct (word_span (String c r)) as (n & post & Hs & Hn & Hp).
    change ("MCD_FLIP_" ++ String c r)
      with ("MCD_FLIP_" ++ (String c r)) in *.
    rewrite Hs in *.
    rewrite (match_here_flip n post Hn Hp) in Ht.
    rewrite (match_here_flip_sub n post Hn Hp) in E1.
    destruct n as [|c' t]; [discriminate|].
    inversion Ht; subst; clear Ht. cbn [group Nat.eqb].
    exists pre, post. repeat split; auto; try discriminate.
    unfold symbol_of. destruct (cut t) as [[p q]|]; [discriminate|].
    reflexivity.
Qed.

(** A key contributes nothing exactly when the literal followed by a
    word character occurs nowhere in it. *)
Lemma infer_key_none (key : string) :
  infer_key key = None <->
  (forall pre c rest,
      key = pre ++ "MCD_FLIP_" ++ String c rest -> is_word c = false).
Proof.
  split.
  - intros H pre c rest ->. unfold infer_key in H.
    destruct (search re_flip_sub _); [discriminate|].
    destruct (search re_flip _) eqn:E; [discriminate|].
    apply search_none in E.
    destruct (is_word c) eqn:W; [|reflexivity]. exfalso.
    destruct (word_span (String c rest)) as (n & post & Hs & Hn & Hp).
    rewrite Hs in E. rewrite (match_here_flip n post Hn Hp) in E.
    destruct n; [|discriminate]. simpl in Hs. subst post.
    simpl in Hp. rewrite W in Hp. discriminate.
  - intros H. destruct (infer_key key) as [[n s]|] eqn:E; [|reflexivity].
    apply infer_key_spec in E as (pre & post & -> & Hne & Hn & _).
    destruct n as [|c t]; [congruence|]. simpl in Hn.
    apply andb_true_iff in Hn as [W _].
    rewrite (H pre c (t ++ post) eq_refl) in W. discriminate.
Qed.

(** ** The loop of [_infer_collaterals_from_addresses] *)

Lemma infer_flat_map (keys : list string) :
  _infer_collaterals_from_addresses keys = flat_map contribution keys.
Proof.
  unfold _infer_collaterals_from_addresses.
  enough (G : forall acc,
             fold_left
               (fun collaterals key =>
                  match infer_key key with
                  | Some nm => (collaterals ++ [nm])%list
                  | None => collaterals
                  end) keys acc
             = (acc ++ flat_map contribution keys)%list) by apply (G []).
  induction keys as [|k keys IH]; intros acc; simpl.
  - now rewrite app_nil_r.
  - rewrite IH. unfold contribution at 2.
    destruct (infer_key k); simpl; [now rewrite <- app_assoc|reflexivity].
Qed.

Lemma infer_app (l1 l2 : list string) :
  _infer_collaterals_from_addresses (l1 ++ l2) =
  (_infer_collaterals_from_addresses l1
     ++ _infer_collaterals_from_addresses l2)%list.
Proof. rewrite !infer_flat_map. apply flat_map_app. Qed.

Lemma In_infer (keys : list string) (nm : string * string) :
  In nm (_infer_collaterals_from_addresses keys) <->
  exists key, In key keys /\ infer_key key = Some nm.
Proof.
  clear json_loads Address_of address_str Address.
  rewrite infer_flat_map, in_flat_map. unfold contribution.
  split; intros (key & Hk & H); exists key; split; auto.
  - destruct (infer_key key); simpl in H; [|tauto].
    destruct H as [->|[]]. reflexivity.
  - rewrite H. now left.
Qed.

(** ** [cut] on texts of a known shape *)

Lemma append_empty_r (s : string) : s ++ "" = s.
Proof. induction s; simpl; congruence. Qed.

Lemma append_assoc (a b c : string) : (a ++ b) ++ c = a ++ b ++ c.
Proof. induction a; simpl; congruence. Qed.

Lemma all_app (f : ascii -> bool) (a b : string) :
  Str.all f (a ++ b) = Str.all f a && Str.all f b.
Proof.
  induction a as [|c a IH]; simpl; [reflexivity|].
  now rewrite IH, andb_assoc.
Qed.

Lemma cut_inner_free (q : string) : inner_free q = true -> cut q = None.
Proof.
  induction q as [|c t IH]; [reflexivity|]. intros H. simpl in *.
  destruct t as [|d t].
  - simpl. now destruct (Ascii.eqb c "_").
  - apply andb_true_iff in H as [Hc Ht]. rewrite (IH Ht).
    apply negb_true_iff in Hc. now rewrite Hc.
Qed.

Lemma cut_app (p q : string) :
  inner_free q = true -> q <> "" -> cut (p ++ "_" ++ q) = Some (p, q).
Proof.
  intros Hq Hne. induction p as [|c p IH].
  - cbn [append cut]. rewrite (cut_inner_free q Hq).
    rewrite Ascii.eqb_refl. destruct q; [congruence|reflexivity].
  - cbn [append cut] in *. now rewrite IH.
Qed.

(** ** Letters and digits *)

Lemma alnum_word (c : ascii) : is_alnum c = true -> is_word c = true.
Proof. unfold is_alnum. intros H. now apply andb_true_iff in H. Qed.

Lemma alnum_not_us (c : ascii) : is_alnum c = true -> is_us c = false.
Proof.
  unfold is_alnum. intros H. apply andb_true_iff in H as [_ H].
  now apply negb_true_iff.
Qed.

Lemma alnum_not_hyphen (c : ascii) :
  is_alnum c = true -> Ascii.eqb c "-" = false.
Proof.
  intros H. destruct (Ascii.eqb c "-") eqn:E; [|reflexivity].
  apply Ascii.eqb_eq in E. subst c. discriminate.
Qed.

Lemma all_alnum_word (s : string) :
  Str.all is_alnum s = true -> Str.all is_word s = true.
Proof.
  induction s as [|c s IH]; simpl; [reflexivity|]. intros H.
  apply andb_true_iff in H as [Hc Hs].
  now rewrite (alnum_word c Hc), IH.
Qed.

Lemma all_alnum_count (s : string) :
  Str.all is_alnum s = true -> Str.count is_us s = 0.
Proof.
  induction s as [|c s IH]; simpl; [reflexivity|]. intros H.
  apply andb_true_iff in H as [Hc Hs].
  now rewrite (alnum_not_us c Hc), IH.
Qed.

Lemma all_alnum_inner_free (s : string) :
  Str.all is_alnum s = true -> inner_free s = true.
Proof.
  induction s as [|c s IH]; [reflexivity|]. intros H. simpl in H.
  apply andb_true_iff in H as [Hc Hs]. cbn [inner_free].
  destruct s; [reflexivity|]. rewrite (IH Hs).
  apply alnum_not_us in Hc. unfold is_us in Hc. now rewrite Hc.
Qed.

Lemma is_symbol_inv (s : string) :
  is_symbol s = true -> s <> "" /\ Str.all is_alnum s = true.
Proof.
  unfold is_symbol. intros H. apply andb_true_iff in H as [H1 H2].
  split; [|exact H2]. intros ->. discriminate.
Qed.

Lemma split_hyphen_alnum (s : string) :
  Str.all is_alnum s = true -> split_hyphen s = (s, None).
Proof.
  induction s as [|c s IH]; [reflexivity|]. simpl. intros H.
  apply andb_true_iff in H as [Hc Hs].
  now rewrite (alnum_not_hyphen c Hc), (IH Hs).
Qed.

Lemma split_hyphen_sound (n : string) :
  n = match snd (split_hyphen n) with
      | None => before_hyphen n
      | Some t => before_hyphen n ++ "-" ++ t
      end.
Proof.
  unfold before_hyphen. induction n as [|c n IH]; [reflexivity|]. simpl.
  destruct (Ascii.eqb c "-") eqn:E.
  - apply Ascii.eqb_eq in E. now subst c.
  - destruct (split_hyphen n) as [a [t|]]; simpl in *; congruence.
Qed.

(** A conventional name is [SYM] or [SYM-SUB]. *)
Lemma conventional_inv (n : string) :
  conventional n = true ->
  is_symbol (before_hyphen n) = true
  /\ (n = before_hyphen n
      \/ exists t, is_symbol t = true /\ n = before_hyphen n ++ "-" ++ t).
Proof.
  unfold conventional. intros H. apply andb_true_iff in H as [H1 H2].
  split; [exact H1|]. pose proof (split_hyphen_sound n) as E.
  destruct (snd (split_hyphen n)) as [t|]; [right|left]; eauto.
Qed.

(** ** [str.replace] *)

Lemma replace_app (a b : ascii) (x y : string) :
  Str.replace a b (x ++ y) = Str.replace a b x ++ Str.replace a b y.
Proof. induction x; simpl; congruence. Qed.

Lemma replace_absent (a b : ascii) (s : string) :
  mem a s = false -> Str.replace a b s = s.
Proof.
  induction s as [|c s IH]; [reflexivity|]. simpl. intros H.
  apply orb_false_iff in H as [Hc Hs]. now rewrite Hc, IH.
Qed.

(** Replacing [a] by [b] and [b] by [a] again gives the text back when
    it had no [b]. *)
Lemma replace_back (a b : ascii) (s : string) :
  mem b s = false -> Str.replace b a (Str.replace a b s) = s.
Proof.
  induction s as [|c s IH]; [reflexivity|]. simpl. intros H.
  apply orb_false_iff in H as [Hc Hs]. rewrite (IH Hs).
  destruct (Ascii.eqb c a) eqn:E.
  - rewrite Ascii.eqb_refl. apply Ascii.eqb_eq in E. now subst c.
  - now rewrite Hc.
Qed.

Lemma word_no_hyphen (s : string) :
  Str.all is_word s = true -> mem "-" s = false.
Proof.
  induction s as [|c s IH]; [reflexivity|]. simpl. intros H.
  apply andb_true_iff in H as [Hc Hs]. rewrite (IH Hs).
  destruct (Ascii.eqb c "-") eqn:E; [|reflexivity].
  apply Ascii.eqb_eq in E. subst c. discriminate.
Qed.

Lemma alnum_no_us (s : string) :
  Str.all is_alnum s = true -> mem "_" s = false.
Proof.
  induction s as [|c s IH]; [reflexivity|]. simpl. intros H.
  apply andb_true_iff in H as [Hc Hs]. rewrite (IH Hs).
  apply alnum_not_us in Hc. unfold is_us in Hc. now rewrite Hc.
Qed.

Lemma alnum_no_hyphen (s : string) :
  Str.all is_alnum s = true -> mem "-" s = false.
Proof. intros H. apply word_no_hyphen, all_alnum_word, H. Qed.

Lemma mem_app (c : ascii) (x y : string) :
  mem c (x ++ y) = mem c x || mem c y.
Proof.
  induction x as [|a x IH]; simpl; [reflexivity|].
  now rewrite IH, orb_assoc.
Qed.

(** ** The ilk pattern of [to_dict] on a name that starts with a run of
    word characters *)

Lemma word_star_longest {A} (n post : string)
    (k : string -> string -> option A) x :
  Str.all is_word n = true -> boundary post = true ->
  k n post = Some x -> word_star (n ++ post) k = Some x.
Proof.
  revert k. induction n as [|c t IH]; intros k Hn Hp Hk.
  - destruct post as [|d post]; [exact Hk|].
    cbn [boundary] in Hp. apply negb_true_iff in Hp.
    cbn [append word_star]. now rewrite Hp.
  - simpl in Hn. apply andb_true_iff in Hn as [W Ht].
    cbn [append word_star]. rewrite W.
    now rewrite (IH (fun m rest => k (String c m) rest) Ht Hp Hk).
Qed.

Lemma search_re_ilk (n post : string) :
  n <> "" -> Str.all is_word n = true -> boundary post = true ->
  exists g, search re_ilk (n ++ post) = Some g /\ group g 1 = n.
Proof.
  intros Hne Hn Hp.
  enough (G : exists g, match_here re_ilk (n ++ post) = Some g
                        /\ group g 1 = n).
  { destruct G as (g & Hg & H1). exists g. split; [|exact H1].
    now apply search_here. }
  unfold match_here, re_ilk. cbn [rmatch].
  destruct n as [|c t]; [congruence|]. simpl in Hn.
  apply andb_true_iff in Hn as [W Ht].
  set (k := fun m rest : string => _).
  assert (Hk : exists g, k (String c t) post = Some g
                         /\ group g 1 = String c t).
  { unfold k. destruct (lit "-" post _) as [g|] eqn:E.
    - exists g. split; [reflexivity|].
      apply lit_sound in E as (r & _ & E).
      apply word_plus_sound in E as (m & rest & _ & _ & _ & E).
      now inversion E.
    - eexists. split; reflexivity. }
  destruct Hk as (g & Hk & Hg). exists g. split; [|exact Hg].
  unfold word_plus. cbn [append]. rewrite W.
  now apply (word_star_longest t post (fun m rest => k (String c m) rest)).
Qed.

(** ** Keys of a known shape *)

(** The literal has two underscores: a text with fewer has no match. *)
Lemma match_here_few_us (r : regex) (s : string) :
  Str.count is_us s < 2 -> match_here (Seq (Lit "MCD_FLIP_") r) s = None.
Proof.
  intros H. destruct (match_here _ s) eqn:E; [exfalso|reflexivity].
  unfold match_here in E. cbn [rmatch] in E.
  apply lit_sound in E as (rest & -> & _). simpl in H. lia.
Qed.

Lemma search_few_us (r : regex) (s : string) :
  Str.count is_us s < 2 -> search (Seq (Lit "MCD_FLIP_") r) s = None.
Proof.
  induction s as [|c s IH]; intros H.
  - cbn [search]. now rewrite (match_here_few_us r "" H).
  - rewrite search_skip by now apply match_here_few_us.
    apply IH. simpl in H. lia.
Qed.

Lemma infer_key_few_us (s : string) :
  Str.count is_us s < 2 -> infer_key s = None.
Proof.
  intros H. unfold infer_key, re_flip_sub, re_flip.
  now rewrite !search_few_us.
Qed.

Lemma count_app (f : ascii -> bool) (x y : string) :
  Str.count f (x ++ y) = Str.count f x + Str.count f y.
Proof. induction x; simpl; lia. Qed.

Lemma infer_key_symbol (s : string) :
  Str.all is_alnum s = true -> infer_key s = None.
Proof.
  intros H. apply infer_key_few_us. rewrite (all_alnum_count s H). lia.
Qed.

Lemma infer_key_pip (s : string) :
  Str.all is_alnum s = true -> infer_key ("PIP_" ++ s) = None.
Proof.
  intros H. apply infer_key_few_us. simpl.
  rewrite (all_alnum_count s H). lia.
Qed.

Lemma infer_key_join (x : string) :
  Str.count is_us x < 2 -> infer_key ("MCD_JOIN_" ++ x) = None.
Proof.
  intros H. unfold infer_key, re_flip_sub, re_flip. cbn [append].
  rewrite !search_skip by reflexivity. now rewrite !search_few_us.
Qed.

(** The greedy split: the symbol of [MCD_FLIP_p_q] is [p] when no
    underscore of [q] is followed by a character. *)
Lemma infer_key_greedy (p q : string) :
  p <> "" -> Str.all is_word p = true ->
  q <> "" -> Str.all is_word q = true -> inner_free q = true ->
  infer_key ("MCD_FLIP_" ++ p ++ "_" ++ q) = Some (p ++ "_" ++ q, p).
Proof.
  intros Hp Wp Hq Wq Fq. unfold infer_key.
  assert (W : Str.all is_word (p ++ "_" ++ q) = true).
  { rewrite !all_app, Wp, Wq. reflexivity. }
  pose proof (match_here_flip_sub (p ++ "_" ++ q) "" W eq_refl) as E.
  rewrite append_empty_r in E. destruct p as [|c p]; [congruence|].
  set (here := match_here _ _) in E. cbn [append] in E.
  rewrite (cut_app p q Fq Hq : cut (p ++ String "_" q) = _) in E.
  subst here. apply search_here in E. rewrite E. reflexivity.
Qed.

Lemma infer_key_flip_symbol (s : string) :
  is_symbol s = true -> infer_key ("MCD_FLIP_" ++ s) = Some (s, s).
Proof.
  intros H. apply is_symbol_inv in H as [Hne Hs].
  pose proof (all_alnum_word s Hs) as W.
  unfold infer_key.
  assert (E1 : search re_flip_sub ("MCD_FLIP_" ++ s) = None).
  { pose proof (match_here_flip_sub s "" W eq_refl) as E.
    rewrite append_empty_r in E. destruct s as [|c t]; [congruence|].
    simpl in Hs. apply andb_true_iff in Hs as [_ Ht].
    rewrite (cut_inner_free t (all_alnum_inner_free t Ht)) in E.
    cbn [append] in *. rewrite (search_skip _ _ _ E).
    unfold re_flip_sub. rewrite !search_skip by reflexivity.
    apply search_few_us. simpl. unfold is_us at 1.
    rewrite (all_alnum_count t Ht).
    destruct (Ascii.eqb c "_"); simpl; lia. }
  rewrite E1.
  pose proof (match_here_flip s "" W eq_refl) as E.
  rewrite append_empty_r in E. destruct s as [|c t]; [congruence|].
  rewrite (search_here _ _ _ E). reflexivity.
Qed.

Lemma infer_key_flip_sub (s t : string) :
  is_symbol s = true -> is_symbol t = true ->
  infer_key ("MCD_FLIP_" ++ s ++ "_" ++ t) = Some (s ++ "_" ++ t, s).
Proof.
  intros Hs Ht. apply is_symbol_inv in Hs as [Hs As].
  apply is_symbol_inv in Ht as [Ht At].
  apply infer_key_greedy; auto using all_alnum_word, all_alnum_inner_free.
Qed.

(** ** Lemmas on dictionaries *)

Lemma get_set_eq {V} (d : Dict.t V) k v : Dict.get (Dict.set d k v) k = Some v.
Proof.
  induction d as [|[k' v'] d IH]; simpl.
  - now rewrite String.eqb_refl.
  - destruct (String.eqb k k') eqn:E; simpl; rewrite E; auto.
Qed.

Lemma get_set_neq {V} (d : Dict.t V) k v k' :
  k' <> k -> Dict.get (Dict.set d k v) k' = Dict.get d k'.
Proof.
  intros Hne. induction d as [|[k1 v1] d IH]; simpl.
  - apply String.eqb_neq in Hne. now rewrite Hne.
  - destruct (String.eqb k k1) eqn:E; simpl.
    + apply String.eqb_eq in E. subst k1.
      apply String.eqb_neq in Hne. now rewrite Hne.
    + now rewrite IH.
Qed.

Lemma keys_set {V} (d : Dict.t V) k v k' :
  In k' (Dict.keys (Dict.set d k v)) <-> k' = k \/ In k' (Dict.keys d).
Proof.
  clear json_loads Address_of address_str Address.
  unfold Dict.keys. induction d as [|[k1 v1] d IH]; simpl.
  - intuition.
  - destruct (String.eqb k k1) eqn:E; simpl.
    + apply String.eqb_eq in E. subst k1. intuition.
    + rewrite IH. intuition.
Qed.

Lemma get_none {V} (d : Dict.t V) k :
  Dict.get d k = None <-> ~ In k (Dict.keys d).
Proof.
  clear json_loads Address_of address_str Address.
  unfold Dict.keys. induction d as [|[k1 v1] d IH]; simpl.
  - intuition.
  - destruct (String.eqb k k1) eqn:E.
    + apply String.eqb_eq in E. subst k1.
      split; [discriminate|]. intros H. exfalso. apply H. now left.
    + apply String.eqb_neq in E. rewrite IH. intuition.
Qed.

Lemma get_some_in {V} (d : Dict.t V) k v :
  Dict.get d k = Some v -> In (k, v) d.
Proof.
  induction d as [|[k1 v1] d IH]; simpl; [discriminate|].
  destruct (String.eqb k k1) eqn:E.
  - apply String.eqb_eq in E. subst k1. intros H.
    inversion H; subst. now left.
  - intros H. right. auto.
Qed.

Lemma in_get {V} (d : Dict.t V) k v :
  NoDup (Dict.keys d) -> In (k, v) d -> Dict.get d k = Some v.
Proof.
  clear json_loads Address_of address_str Address.
  unfold Dict.keys. induction d as [|[k1 v1] d IH]; simpl; [tauto|].
  intros Hnd [H|H].
  - inversion H; subst. now rewrite String.eqb_refl.
  - inversion Hnd; subst. destruct (String.eqb k k1) eqn:E.
    + apply String.eqb_eq in E. subst k1. exfalso. apply H2.
      apply (in_map fst) in H. exact H.
    + auto.
Qed.

Lemma in_set {V} (d : Dict.t V) k v k' v' :
  In (k', v') (Dict.set d k v) -> (k', v') = (k, v) \/ In (k', v') d.
Proof.
  clear json_loads Address_of address_str Address.
  induction d as [|[k1 v1] d IH]; simpl.
  - intuition.
  - destruct (String.eqb k k1) eqn:E; simpl.
    + apply String.eqb_eq in E. subst k1. intuition.
    + intuition.
Qed.

Lemma NoDup_set {V} (d : Dict.t V) k v :
  NoDup (Dict.keys d) -> NoDup (Dict.keys (Dict.set d k v)).
Proof.
  clear json_loads Address_of address_str Address.
  unfold Dict.keys. induction d as [|[k1 v1] d IH]; simpl; intros H.
  - constructor; [tauto|constructor].
  - inversion H; subst. destruct (String.eqb k k1) eqn:E; simpl.
    + now constructor.
    + constructor; [|auto]. intros Hin.
      apply (keys_set d k v k1) in Hin as [->|Hin]; [|tauto].
      now rewrite String.eqb_refl in E.
Qed.

Lemma assign_app d es1 es2 :
  assign d (es1 ++ es2) = assign (assign d es1) es2.
Proof. apply fold_left_app. Qed.

Lemma keys_assign d es k :
  In k (Dict.keys (assign d es)) <-> In k (map fst es) \/ In k (Dict.keys d).
Proof.
  clear json_loads json_dumps Address_of address_str Address.
  revert d. induction es as [|[k1 v1] es IH]; intros d; simpl.
  - intuition.
  - rewrite IH, keys_set. simpl. intuition.
Qed.

Lemma NoDup_assign d es :
  NoDup (Dict.keys d) -> NoDup (Dict.keys (assign d es)).
Proof.
  revert d. induction es as [|e es IH]; intros d H; simpl; [exact H|].
  apply IH, NoDup_set, H.
Qed.

Lemma get_assign_notin d es k :
  ~ In k (map fst es) -> Dict.get (assign d es) k = Dict.get d k.
Proof.
  clear json_loads json_dumps Address_of address_str Address.
  revert d. induction es as [|[k1 v1] es IH]; intros d H; simpl in *.
  - reflexivity.
  - rewrite IH by tauto. apply get_set_neq. intros ->. tauto.
Qed.

Lemma get_assign_in d es k v :
  functional es -> In (k, v) es -> Dict.get (assign d es) k = Some v.
Proof.
  revert d. induction es as [|[k1 v1] es IH]; intros d F H; [destruct H|].
  simpl. destruct (in_dec string_dec k (map fst es)) as [Hin|Hout].
  - apply in_map_iff in Hin as ([k' v'] & Hk & Hin). simpl in Hk. subst k'.
    assert (v' = v) by (apply (F k); [now right|exact H]). subst v'.
    apply IH; [|exact Hin]. intros a b b' Hb Hb'.
    apply (F a); now right.
  - rewrite (get_assign_notin _ _ _ Hout). destruct H as [H|H].
    + inversion H; subst. apply get_set_eq.
    + exfalso. apply Hout. apply (in_map fst) in H. exact H.
Qed.

(** ** [to_dict] as a run of assignments *)

Lemma search_re_ilk_wordy (n : string) :
  wordy n = true ->
  exists g, search re_ilk n = Some g /\ group g 1 = before_hyphen n.
Proof.
  unfold wordy. intros H. apply andb_true_iff in H as [Hne Hw].
  assert (Hne' : before_hyphen n <> "").
  { intros E. rewrite E in Hne. discriminate. }
  pose proof (split_hyphen_sound n) as E.
  destruct (snd (split_hyphen n)) as [t|].
  - destruct (search_re_ilk (before_hyphen n) ("-" ++ t) Hne' Hw eq_refl)
      as (g & Hg & H1).
    exists g. split; [|exact H1]. rewrite E. exact Hg.
  - destruct (search_re_ilk (before_hyphen n) "" Hne' Hw eq_refl)
      as (g & Hg & H1).
    exists g. split; [|exact H1]. rewrite append_empty_r in Hg.
    rewrite E. exact Hg.
Qed.

Lemma put_collateral_wordy (d : Dict.t string) (col : Collateral) :
  wordy (name (ilk col)) = true ->
  put_collateral d col = Ok (assign d (collateral_entries col)).
Proof.
  intros H. destruct (search_re_ilk_wordy _ H) as (g & Hg & H1).
  unfold put_collateral, collateral_entries. rewrite Hg. cbn [fst snd].
  rewrite H1. destruct (pip col); reflexivity.
Qed.

Lemma to_dict_loop (cols : list Collateral) (d : Dict.t string) :
  (forall col, In col cols -> wordy (name (ilk col)) = true) ->
  fold_left
    (fun acc collateral =>
       conf_dict <- acc ;; put_collateral conf_dict collateral)
    cols (Ok d)
  = Ok (assign d (flat_map collateral_entries cols)).
Proof.
  revert d. induction cols as [|col cols IH]; intros d H; [reflexivity|].
  cbn [fold_left bind flat_map].
  rewrite put_collateral_wordy by (apply H; now left).
  rewrite IH by (intros; apply H; now right).
  now rewrite assign_app.
Qed.

Lemma to_dict_wordy (c : Config) :
  (forall col, In col (Dict.values (collaterals c)) ->
               wordy (name (ilk col)) = true) ->
  to_dict c = Ok (assign [] (all_entries c)).
Proof.
  intros H. unfold to_dict, all_entries.
  rewrite (to_dict_loop _ _ H), assign_app. reflexivity.
Qed.

Lemma conventional_wordy (n : string) :
  conventional n = true -> wordy n = true.
Proof.
  intros H. apply conventional_inv in H as [H _]. unfold wordy.
  unfold is_symbol in H. apply andb_true_iff in H as [H1 H2].
  now rewrite H1, (all_alnum_word _ H2).
Qed.

(** ** [from_json]: one collateral *)

Lemma Ok_inj {A} (a b : A) : Ok a = Ok b -> a = b.
Proof. congruence. Qed.

Lemma Raise_inj {A} (a b : exception) : @Raise A a = Raise b -> a = b.
Proof. congruence. Qed.

Lemma collateral_of_inv w conf vt nm col :
  collateral_of w conf vt nm = Ok col ->
  name (ilk col) = Str.replace "_" "-" (fst nm)
  /\ quadruple_of conf nm col
  /\ (forall k, In k (collateral_keys nm) -> Dict.get conf k <> None).
Proof.
  unfold collateral_of, getitem, quadruple_of, collateral_keys.
  destruct (Dict.get conf (snd nm)) as [g|] eqn:E1; [|discriminate].
  cbn [bind].
  destruct (Dict.get conf ("MCD_JOIN_" ++ fst nm)) as [a|] eqn:E2;
    [|discriminate].
  cbn [bind].
  destruct (Dict.get conf ("PIP_" ++ snd nm)) as [p|] eqn:E3;
    [|discriminate].
  cbn [bind].
  destruct (Dict.get conf ("MCD_FLIP_" ++ fst nm)) as [f|] eqn:E4;
    [|discriminate].
  cbn [bind]. intros H. apply Ok_inj in H. subst col.
  cbn [name ilk gem adapter flipper pip Vat_ilk option_map].
  split; [reflexivity|]. split; [|intros k [<-|[<-|[<-|[<-|[]]]]]; congruence].
  split; [now destruct (String.eqb (snd nm) "ETH")|].
  split; [now destruct (existsb _ _)|].
  split; [|reflexivity].
  eexists. split; [reflexivity|].
  destruct (String.eqb _ "testnet"); [reflexivity|].
  now destruct (Str.startswith "UNIV2" (snd nm)).
Qed.

Lemma collateral_of_raise w conf vt nm e :
  collateral_of w conf vt nm = Raise e ->
  exists k, e = KeyError k /\ In k (collateral_keys nm)
            /\ Dict.get conf k = None.
Proof.
  clear json_loads json_dumps address_str.
  unfold collateral_of, getitem, collateral_keys.
  destruct (Dict.get conf (snd nm)) as [g|] eqn:E1; cbn [bind].
  2:{ intros H. apply Raise_inj in H. subst e. eexists. split; [reflexivity|].
      split; [|exact E1]. simpl. tauto. }
  destruct (Dict.get conf ("MCD_JOIN_" ++ fst nm)) as [a|] eqn:E2;
    cbn [bind].
  2:{ intros H. apply Raise_inj in H. subst e. eexists. split; [reflexivity|].
      split; [|exact E2]. simpl. tauto. }
  destruct (Dict.get conf ("PIP_" ++ snd nm)) as [p|] eqn:E3; cbn [bind].
  2:{ intros H. apply Raise_inj in H. subst e. eexists. split; [reflexivity|].
      split; [|exact E3]. simpl. tauto. }
  destruct (Dict.get conf ("MCD_FLIP_" ++ fst nm)) as [f|] eqn:E4;
    cbn [bind].
  2:{ intros H. apply Raise_inj in H. subst e. eexists. split; [reflexivity|].
      split; [|exact E4]. simpl. tauto. }
  discriminate.
Qed.

Lemma collateral_of_total w conf vt nm :
  (forall k, In k (collateral_keys nm) -> Dict.get conf k <> None) ->
  exists col, collateral_of w conf vt nm = Ok col.
Proof.
  intros H. destruct (collateral_of w conf vt nm) as [col|e] eqn:E.
  - now exists col.
  - apply collateral_of_raise in E as (k & _ & Hk & Hn).
    now destruct (H k Hk).
Qed.

(** ** [from_json]: the loop over the inferred names *)

Lemma collaterals_of_loop w conf vt names :
  collaterals_of w conf vt names = collaterals_loop w conf vt names (Ok []).
Proof. reflexivity. Qed.

Lemma loop_raised w conf vt names e :
  collaterals_loop w conf vt names (Raise e) = Raise e.
Proof. induction names; simpl; auto. Qed.

Lemma loop_cons w conf vt nm names d :
  collaterals_loop w conf vt (nm :: names) (Ok d) =
  match collateral_of w conf vt nm with
  | Ok col =>
      collaterals_loop w conf vt names
        (Ok (Dict.set d (name (ilk col)) col))
  | Raise e => Raise e
  end.
Proof.
  unfold collaterals_loop. cbn [fold_left bind].
  destruct (collateral_of w conf vt nm); cbn [bind]; [reflexivity|].
  apply loop_raised.
Qed.

Lemma loop_raise w conf vt names d e :
  collaterals_loop w conf vt names (Ok d) = Raise e ->
  exists nm, In nm names /\ collateral_of w conf vt nm = Raise e.
Proof.
  revert d. induction names as [|nm names IH]; intros d; [discriminate|].
  rewrite loop_cons. destruct (collateral_of w conf vt nm) eqn:E.
  - intros H. destruct (IH _ H) as (nm' & Hin & H').
    exists nm'. split; [now right|exact H'].
  - intros H. inversion H; subst. exists nm. split; [now left|exact E].
Qed.

Lemma loop_ok w conf vt names d tbl :
  collaterals_loop w conf vt names (Ok d) = Ok tbl ->
  (forall nm, In nm names ->
              exists col, collateral_of w conf vt nm = Ok col)
  /\ (forall k col, In (k, col) tbl ->
        In (k, col) d
        \/ exists nm, In nm names /\ collateral_of w conf vt nm = Ok col
                      /\ k = Str.replace "_" "-" (fst nm))
  /\ (forall k, In k (Dict.keys tbl) <->
        In k (Dict.keys d)
        \/ exists nm, In nm names /\ k = Str.replace "_" "-" (fst nm))
  /\ (NoDup (Dict.keys d) -> NoDup (Dict.keys tbl)).
Proof.
  revert d. induction names as [|nm names IH]; intros d.
  - intros H. inversion H; subst. repeat split; auto.
    + intros ? [].
    + intros [H'|(? & [] & _)]. exact H'.
  - rewrite loop_cons.
    destruct (collateral_of w conf vt nm) as [col|] eqn:E; [|discriminate].
    intros H. destruct (IH _ H) as (H1 & H2 & H3 & H4).
    destruct (collateral_of_inv _ _ _ _ _ E) as (Hn & _).
    repeat split.
    + intros nm' [<-|Hin]; eauto.
    + intros k c Hin. destruct (H2 k c Hin) as [Hd|(nm' & Hin' & Hc & Hk)].
      * apply in_set in Hd as [Hd|Hd]; [|now left].
        inversion Hd; subst. right. exists nm. split; [now left|].
        split; [exact E|exact Hn].
      * right. exists nm'. split; [now right|]. now split.
    + intros Hin. apply H3 in Hin as [Hin|(nm' & Hin & Hk)].
      * apply keys_set in Hin as [->|Hin]; [|now left].
        right. exists nm. split; [now left|exact Hn].
      * right. exists nm'. split; [now right|exact Hk].
    + intros [Hin|(nm' & [<-|Hin] & Hk)]; apply H3.
      * left. apply keys_set. now right.
      * left. apply keys_set. left. now rewrite Hn.
      * right. now exists nm'.
    + intros Hnd. apply H4. now apply NoDup_set.
Qed.

Lemma loop_total w conf vt names d :
  (forall nm, In nm names ->
              exists col, collateral_of w conf vt nm = Ok col) ->
  exists tbl, collaterals_loop w conf vt names (Ok d) = Ok tbl.
Proof.
  revert d. induction names as [|nm names IH]; intros d H.
  - now exists d.
  - rewrite loop_cons. destruct (H nm (or_introl eq_refl)) as (col & ->).
    apply IH. intros nm' Hin. apply H. now right.
Qed.

(** ** [from_json]: the fixed handles *)

Ltac read_key H k :=
  let E := fresh "E" in
  destruct (Dict.get _ k) eqn:E; cbn [bind] in H; [|discriminate H].

Ltac read_fixed H :=
  read_key H "MCD_PAUSE"; read_key H "MCD_VAT"; read_key H "MCD_VOW";
  read_key H "MCD_JUG"; read_key H "MCD_CAT"; read_key H "MCD_DAI";
  read_key H "MCD_JOIN_DAI"; read_key H "MCD_FLAP"; read_key H "MCD_FLOP";
  read_key H "MCD_POT"; read_key H "MCD_GOV"; read_key H "MCD_SPOT";
  read_key H "MCD_ADM"; read_key H "MCD_ESM"; read_key H "MCD_END";
  read_key H "PROXY_REGISTRY"; read_key H "PROXY_ACTIONS_DSR";
  read_key H "CDP_MANAGER"; read_key H "DSR_MANAGER".

Lemma from_conf_inv w conf cfg :
  from_conf w conf = Ok cfg ->
  (forall k h, In (k, h) (fixed_handles cfg) ->
               option_map Address_of (Dict.get conf k) = Some (address h))
  /\ collaterals_of w conf (vat cfg)
       (_infer_collaterals_from_addresses (Dict.keys conf))
     = Ok (collaterals cfg).
Proof.
  unfold from_conf, getitem. intros H. read_fixed H.
  match type of H with
  | context [collaterals_of ?a ?b ?c ?d] =>
      destruct (collaterals_of a b c d) as [tbl|] eqn:EC;
      cbn [bind] in H; [|discriminate H]
  end.
  apply Ok_inj in H. subst cfg. split; [|exact EC].
  intros k h Hin. unfold fixed_handles in Hin. cbn [In] in Hin.
  repeat (destruct Hin as [Hin|Hin];
          [apply pair_equal_spec in Hin as [<- <-];
           match goal with
           | E : Dict.get conf ?k = _ |- context [Dict.get conf ?k] =>
               rewrite E
           end; reflexivity|]).
  destruct Hin.
Qed.

Ltac miss_key H k :=
  let E := fresh "E" in
  destruct (Dict.get _ k) eqn:E; cbn [bind] in H;
  [|left; exists k; split; [unfold fixed_keys; cbn [In]; intuition|];
    split; [exact E|]; apply Raise_inj in H; now subst].

Lemma from_conf_raise w conf e :
  from_conf w conf = Raise e ->
  (exists k, In k fixed_keys /\ Dict.get conf k = None /\ e = KeyError k)
  \/ (exists vt,
        collaterals_of w conf vt
          (_infer_collaterals_from_addresses (Dict.keys conf)) = Raise e).
Proof.
  clear json_loads json_dumps address_str.
  unfold from_conf, getitem. intros H.
  miss_key H "MCD_PAUSE". miss_key H "MCD_VAT". miss_key H "MCD_VOW".
  miss_key H "MCD_JUG". miss_key H "MCD_CAT". miss_key H "MCD_DAI".
  miss_key H "MCD_JOIN_DAI". miss_key H "MCD_FLAP". miss_key H "MCD_FLOP".
  miss_key H "MCD_POT". miss_key H "MCD_GOV". miss_key H "MCD_SPOT".
  miss_key H "MCD_ADM". miss_key H "MCD_ESM". miss_key H "MCD_END".
  miss_key H "PROXY_REGISTRY". miss_key H "PROXY_ACTIONS_DSR".
  miss_key H "CDP_MANAGER". miss_key H "DSR_MANAGER".
  match type of H with
  | context [collaterals_of ?a ?b ?c ?d] =>
      destruct (collaterals_of a b c d) as [tbl|] eqn:EC;
      cbn [bind] in H;
      [discriminate H
      |right; exists c; rewrite EC; apply Raise_inj in H; now subst]
  end.
Qed.

Lemma from_conf_ok_referenced w conf cfg :
  from_conf w conf = Ok cfg ->
  forall k, referenced conf k -> Dict.get conf k <> None.
Proof.
  intros H k [Hk|(nm & Hnm & Hk)].
  - unfold from_conf, getitem in H. read_fixed H.
    unfold fixed_keys in Hk. cbn [In] in Hk.
    repeat (destruct Hk as [<-|Hk]; [congruence|]). destruct Hk.
  - apply from_conf_inv in H as [_ H]. rewrite collaterals_of_loop in H.
    apply loop_ok in H as (H & _). destruct (H nm Hnm) as (col & Hc).
    apply collateral_of_inv in Hc as (_ & _ & Hc). now apply Hc.
Qed.

Lemma from_conf_raise_referenced w conf e :
  from_conf w conf = Raise e ->
  exists k, e = KeyError k /\ referenced conf k /\ Dict.get conf k = None.
Proof.
  intros H. apply from_conf_raise in H as [(k & Hk & Hn & ->)|(vt & H)].
  - exists k. split; [reflexivity|]. split; [now left|exact Hn].
  - rewrite collaterals_of_loop in H.
    apply loop_raise in H as (nm & Hnm & H).
    apply collateral_of_raise in H as (k & -> & Hk & Hn).
    exists k. split; [reflexivity|]. split; [|exact Hn].
    right. now exists nm.
Qed.

Lemma from_conf_total w conf :
  (forall k, referenced conf k -> Dict.get conf k <> None) ->
  exists cfg, from_conf w conf = Ok cfg.
Proof.
  intros H. destruct (from_conf w conf) as [cfg|e] eqn:E; [now exists cfg|].
  apply from_conf_raise_referenced in E as (k & _ & Hk & Hn).
  now destruct (H k Hk).
Qed.

(** ** Keys of a conventional ilk *)

Lemma conventional_shape (n : string) :
  conventional n = true ->
  let s := before_hyphen n in
  is_symbol s = true
  /\ ((n = s /\ Str.replace "-" "_" n = s)
      \/ exists t, is_symbol t = true /\ n = s ++ "-" ++ t
                   /\ Str.replace "-" "_" n = s ++ "_" ++ t).
Proof.
  intros H s. destruct (conventional_inv n H) as [Hs Hn]. fold s in Hs, Hn.
  split; [exact Hs|]. apply is_symbol_inv in Hs as [_ As].
  destruct Hn as [Hn|(t & Ht & Hn)].
  - left. split; [exact Hn|]. rewrite Hn.
    apply replace_absent, alnum_no_hyphen, As.
  - right. exists t. split; [exact Ht|]. split; [exact Hn|].
    apply is_symbol_inv in Ht as [_ At]. rewrite Hn, !replace_app.
    rewrite (replace_absent "-" "_" s) by apply alnum_no_hyphen, As.
    rewrite (replace_absent "-" "_" t) by apply alnum_no_hyphen, At.
    reflexivity.
Qed.

Lemma infer_key_flip_conventional (n : string) :
  conventional n = true ->
  infer_key ("MCD_FLIP_" ++ Str.replace "-" "_" n)
  = Some (Str.replace "-" "_" n, before_hyphen n).
Proof.
  intros H. destruct (conventional_shape n H) as [Hs [[_ ->]|(t & Ht & _ & ->)]].
  - now apply infer_key_flip_symbol.
  - now apply infer_key_flip_sub.
Qed.

Lemma infer_key_join_conventional (n : string) :
  conventional n = true ->
  infer_key ("MCD_JOIN_" ++ Str.replace "-" "_" n) = None.
Proof.
  intros H. apply infer_key_join.
  destruct (conventional_shape n H) as [Hs [[_ ->]|(t & Ht & _ & ->)]];
    apply is_symbol_inv in Hs as [_ As].
  - rewrite (all_alnum_count _ As). lia.
  - apply is_symbol_inv in Ht as [_ At]. rewrite !count_app.
    rewrite (all_alnum_count _ As), (all_alnum_count _ At). simpl. lia.
Qed.

Lemma rename_back_conventional (n : string) :
  conventional n = true ->
  Str.replace "_" "-" (Str.replace "-" "_" n) = n.
Proof.
  intros H. apply replace_back.
  destruct (conventional_shape n H) as [Hs [[-> _]|(t & Ht & -> & _)]];
    apply is_symbol_inv in Hs as [_ As].
  - now apply alnum_no_us.
  - apply is_symbol_inv in Ht as [_ At].
    now rewrite !mem_app, (alnum_no_us _ As), (alnum_no_us _ At).
Qed.

(** What a key of the address book of a conventional configuration
    contributes. *)
Lemma infer_key_entry (col : Collateral) (key : string) nm :
  conventional (name (ilk col)) = true ->
  In key (map fst (collateral_entries col)) ->
  infer_key key = Some nm ->
  nm = (Str.replace "-" "_" (name (ilk col)), before_hyphen (name (ilk col))).
Proof.
  intros Hc Hin Hk. pose proof (conventional_shape _ Hc) as [Hs _].
  apply is_symbol_inv in Hs as [_ As].
  unfold collateral_entries in Hin. cbn [map fst In] in Hin.
  destruct Hin as [<-|Hin].
  { rewrite (infer_key_symbol _ As) in Hk. discriminate. }
  rewrite map_app in Hin. apply in_app_or in Hin as [Hin|Hin].
  - destruct (pip col); [|destruct Hin]. destruct Hin as [<-|[]].
    cbn [fst] in Hk. rewrite (infer_key_pip _ As) in Hk. discriminate.
  - destruct Hin as [<-|[<-|[]]]; cbn [fst] in Hk.
    + rewrite (infer_key_join_conventional _ Hc) in Hk. discriminate.
    + rewrite (infer_key_flip_conventional _ Hc) in Hk. congruence.
Qed.

Lemma infer_key_fixed (c : Config) (key : string) :
  In key (map fst (fixed_dict c)) -> infer_key key = None.
Proof.
  unfold fixed_dict. cbn [map fst In]. intros H.
  repeat (destruct H as [<-|H]; [vm_compute; reflexivity|]). destruct H.
Qed.

(** ** Configurations that follow the naming convention *)

Lemma nodupb_sound (l : list string) : nodupb l = true -> NoDup l.
Proof.
  induction l as [|k l IH]; simpl; intros H; [constructor|].
  apply andb_true_iff in H as [H1 H2]. constructor; [|auto].
  intros Hin. apply negb_true_iff in H1.
  assert (existsb (String.eqb k) l = true); [|congruence].
  apply existsb_exists. exists k. split; [exact Hin|apply String.eqb_refl].
Qed.

Lemma functionalb_sound (es : list (string * string)) :
  functionalb es = true -> functional es.
Proof.
  unfold functionalb. intros H k v v' H1 H2.
  rewrite forallb_forall in H. specialize (H _ H1).
  rewrite forallb_forall in H. specialize (H _ H2). cbn [fst snd] in H.
  rewrite String.eqb_refl in H. now apply String.eqb_eq in H.
Qed.

Lemma in_values {V} (d : Dict.t V) (v : V) :
  In v (Dict.values d) <-> exists k, In (k, v) d.
Proof.
  unfold Dict.values. rewrite in_map_iff. split.
  - intros ([k v'] & <- & H). now exists k.
  - intros (k & H). now exists (k, v).
Qed.

Lemma follows_convention_inv (c : Config) :
  follows_convention c = true ->
  NoDup (Dict.keys (collaterals c))
  /\ (forall k col, In (k, col) (collaterals c) ->
        k = name (ilk col) /\ conventional (name (ilk col)) = true).
Proof.
  unfold follows_convention. intros H.
  apply andb_true_iff in H as [H1 H2]. split; [now apply nodupb_sound|].
  intros k col Hin. rewrite forallb_forall in H2.
  specialize (H2 _ Hin). cbn [fst snd] in H2.
  apply andb_true_iff in H2 as [Hk Hc]. now apply String.eqb_eq in Hk.
Qed.

Lemma conventional_values (c : Config) col :
  follows_convention c = true ->
  In col (Dict.values (collaterals c)) ->
  conventional (name (ilk col)) = true
  /\ In (name (ilk col), col) (collaterals c).
Proof.
  intros H Hin. apply follows_convention_inv in H as [_ H].
  apply in_values in Hin as (k & Hin).
  destruct (H _ _ Hin) as [-> Hc]. now split.
Qed.

(** ** The address book of a conventional configuration *)

Section Book.
Variable c : Config.
Hypothesis Hconv : follows_convention c = true.

Let d := assign [] (all_entries c).

Lemma book_to_dict : to_dict c = Ok d.
Proof using Hconv.
  apply to_dict_wordy. intros col Hin.
  apply conventional_wordy. now apply (conventional_values c).
Qed.

Lemma book_keys (k : string) :
  In k (Dict.keys d) <-> In k (map fst (all_entries c)).
Proof. clear json_loads json_dumps Address_of. unfold d. rewrite keys_assign. simpl. tauto. Qed.

Lemma book_nodup : NoDup (Dict.keys d).
Proof. apply NoDup_assign. constructor. Qed.

(** What is inferred from the book: one name for each collateral. *)
Lemma book_infer (nm : string * string) :
  In nm (_infer_collaterals_from_addresses (Dict.keys d)) <->
  exists col, In col (Dict.values (collaterals c))
              /\ nm = (Str.replace "-" "_" (name (ilk col)),
                       before_hyphen (name (ilk col))).
Proof using Hconv. clear json_loads json_dumps Address_of.
  rewrite In_infer. split.
  - intros (key & Hk & Hi). apply book_keys in Hk.
    unfold all_entries in Hk. rewrite map_app in Hk.
    apply in_app_or in Hk as [Hk|Hk].
    + rewrite (infer_key_fixed c key Hk) in Hi. discriminate.
    + rewrite flat_map_concat_map, concat_map, map_map in Hk.
      apply in_concat in Hk as (l & Hl & Hk).
      apply in_map_iff in Hl as (col & <- & Hcol).
      exists col. split; [exact Hcol|].
      apply (infer_key_entry col key); auto.
      now apply (conventional_values c).
  - intros (col & Hcol & ->).
    destruct (conventional_values c col Hconv Hcol) as [Hc _].
    exists ("MCD_FLIP_" ++ Str.replace "-" "_" (name (ilk col))).
    split; [|now apply infer_key_flip_conventional].
    apply book_keys. unfold all_entries. rewrite map_app.
    apply in_or_app. right. apply in_map_iff.
    exists ("MCD_FLIP_" ++ Str.replace "-" "_" (name (ilk col)),
            addr (flipper col)).
    split; [reflexivity|]. apply in_flat_map. exists col.
    split; [exact Hcol|]. unfold collateral_entries.
    right. apply in_or_app. right. simpl. tauto.
Qed.

End Book.

Lemma fixed_keys_dict (c : Config) : map fst (fixed_dict c) = fixed_keys.
Proof. reflexivity. Qed.

Lemma fixed_dict_handles (c : Config) :
  fixed_dict c = map (fun e => (fst e, addr (snd e))) (fixed_handles c).
Proof. reflexivity. Qed.

Lemma in_all_entries_fixed (c : Config) k h :
  In (k, h) (fixed_handles c) -> In (k, addr h) (all_entries c).
Proof.
  intros H. unfold all_entries. apply in_or_app. left.
  rewrite fixed_dict_handles. apply in_map_iff. now exists (k, h).
Qed.

Lemma in_all_entries_collateral (c : Config) col e :
  In col (Dict.values (collaterals c)) ->
  In e (collateral_entries col) -> In e (all_entries c).
Proof.
  intros Hc He. unfold all_entries. apply in_or_app. right.
  apply in_flat_map. now exists col.
Qed.

(** The four names of a collateral with a price feed are entries of the
    book. *)
Lemma collateral_keys_entries (col : Collateral) (p : Handle) :
  pip col = Some p ->
  let nm := (Str.replace "-" "_" (name (ilk col)),
             before_hyphen (name (ilk col))) in
  collateral_entries col
  = [ (snd nm, addr (gem col)); ("PIP_" ++ snd nm, addr p);
      ("MCD_JOIN_" ++ fst nm, addr (adapter col));
      ("MCD_FLIP_" ++ fst nm, addr (flipper col)) ].
Proof. intros H. unfold collateral_entries. now rewrite H. Qed.

(** ** The round trip *)

Section RoundTrip.

(** An address is built back from its text, and a dumped dictionary
    is loaded back. *)
Hypothesis Address_of_str : forall a, Address_of (address_str a) = a.
Hypothesis json_loads_dumps :
  forall d, NoDup (Dict.keys d) -> json_loads (json_dumps d) = Some d.

Lemma round_trip_book (w : Web3) (c : Config) :
  follows_convention c = true ->
  round_trip w c = from_conf w (assign [] (all_entries c)).
Proof using json_loads_dumps.
  intros H. unfold round_trip, to_json, from_json.
  rewrite (book_to_dict c H). cbn [bind].
  now rewrite json_loads_dumps by apply book_nodup.
Qed.

Lemma book_address (es : list (string * string)) k (h : Handle) a :
  functional es -> In (k, addr h) es ->
  option_map Address_of (Dict.get (assign [] es) k) = Some a ->
  address h = a.
Proof using Address_of_str.
  intros F Hin H. rewrite (get_assign_in [] es k _ F Hin) in H.
  cbn [option_map] in H. unfold addr in H.
  rewrite Address_of_str in H. congruence.
Qed.

(** C1 (as amended): for a configuration whose collaterals are stored
    under their ilk names, these names being [SYM] or [SYM-SUB], each
    with a price feed, and whose address book gives no name two different
    addresses, [to_json] followed by [from_json] returns a configuration
    with the same address for every fixed handle and the same ilk names,
    each with the same gem, adapter, price-feed and flipper addresses. *)
Theorem round_trip_well_formed (w : Web3) (c : Config) :
  well_formed c = true ->
  exists c', round_trip w c = Ok c' /\ equivalent c c'.
Proof using json_loads_dumps Address_of_str.
  unfold well_formed. intros H.
  apply andb_true_iff in H as [H Hfun].
  apply andb_true_iff in H as [Hconv Hpip].
  apply functionalb_sound in Hfun. rewrite forallb_forall in Hpip.
  rewrite (round_trip_book w c Hconv).
  set (d := assign [] (all_entries c)).
  assert (Hhas : forall col, In col (Dict.values (collaterals c)) ->
            exists p, pip col = Some p).
  { intros col Hin. specialize (Hpip col Hin). unfold has_pip in Hpip.
    destruct (pip col) as [p|]; [now exists p|discriminate]. }
  assert (Hget : forall k v, In (k, v) (all_entries c) ->
            Dict.get d k = Some v).
  { intros k v Hin. now apply get_assign_in. }
  (* every name that is read is in the book *)
  destruct (from_conf_total w d) as (c' & Hc').
  { intros k [Hk|(nm & Hnm & Hk)].
    - rewrite <- (fixed_keys_dict c) in Hk.
      apply in_map_iff in Hk as ([k' v] & <- & Hk). cbn [fst].
      rewrite (Hget k' v); [discriminate|].
      unfold all_entries. apply in_or_app. now left.
    - apply (book_infer c Hconv) in Hnm as (col & Hcol & ->).
      destruct (Hhas col Hcol) as (p & Hp).
      pose proof (collateral_keys_entries col p Hp) as E. cbv zeta in E.
      unfold collateral_keys in Hk. cbn [fst snd In] in Hk.
      assert (G : exists v, In (k, v) (collateral_entries col)).
      { rewrite E. cbn [fst snd In].
        destruct Hk as [<-|[<-|[<-|[<-|[]]]]]; eexists; eauto 6. }
      destruct G as (v & Hv).
      rewrite (Hget k v); [discriminate|].
      now apply (in_all_entries_collateral c col). }
  exists c'. split; [exact Hc'|].
  destruct (from_conf_inv w d c' Hc') as [Hfix Hcol]. split.
  - (* the fixed handles *)
    assert (G : forall k h h',
               In (k, h) (fixed_handles c) ->
               In (k, h') (fixed_handles c') ->
               address h = address h').
    { intros k h h' Hin Hin'.
      apply (book_address (all_entries c) k h); auto.
      now apply in_all_entries_fixed. }
    unfold same_fixed.
    repeat match goal with
           | |- _ /\ _ => split
           end;
      (eapply G;
       [ unfold fixed_handles; cbn [In];
         repeat (first [left; reflexivity | right])
       | unfold fixed_handles; cbn [In];
         repeat (first [left; reflexivity | right]) ]).
  - (* the collaterals *)
    rewrite collaterals_of_loop in Hcol.
    apply loop_ok in Hcol as (_ & Hfrom & Hkeys & Hnd).
    destruct (follows_convention_inv c Hconv) as [Hndc Hkeyed].
    assert (Hback : forall nm,
               In nm (_infer_collaterals_from_addresses (Dict.keys d)) ->
               exists col, In col (Dict.values (collaterals c))
                 /\ nm = (Str.replace "-" "_" (name (ilk col)),
                          before_hyphen (name (ilk col)))
                 /\ Str.replace "_" "-" (fst nm) = name (ilk col)
                 /\ In (name (ilk col), col) (collaterals c)).
    { intros nm Hnm.
      apply (book_infer c Hconv) in Hnm as (col & Hin & ->).
      destruct (conventional_values c col Hconv Hin) as [Hc Hi].
      exists col. repeat split; auto. cbn [fst].
      now apply rename_back_conventional. }
    intros n. destruct (Dict.get (collaterals c) n) as [col|] eqn:En.
    + apply get_some_in in En as Hin.
      destruct (Hkeyed _ _ Hin) as [-> Hc].
      assert (Hv : In col (Dict.values (collaterals c))).
      { apply in_values. eauto. }
      destruct (Dict.get (collaterals c') (name (ilk col)))
        as [col'|] eqn:En'.
      * apply get_some_in in En'.
        destruct (Hfrom _ _ En') as [[]|(nm & Hnm & Hof & Hk)].
        destruct (Hback nm Hnm) as (col2 & Hv2 & -> & Hn2 & Hi2).
        rewrite Hn2 in Hk.
        assert (col2 = col).
        { rewrite <- Hk in Hi2.
          pose proof (in_get _ _ _ Hndc Hi2) as G2.
          pose proof (in_get _ _ _ Hndc Hin) as G1. congruence. }
        subst col2.
        apply collateral_of_inv in Hof as (Hname & Hq & _).
        destruct Hq as (Hg & Ha & (p' & Hp' & Hpa) & Hf).
        cbn [fst snd] in *.
        destruct (Hhas col Hv) as (p & Hp).
        pose proof (collateral_keys_entries col p Hp) as E.
        cbv zeta in E. cbn [fst snd] in E.
        assert (I : forall e, In e (collateral_entries col) ->
                              In e (all_entries c)).
        { intros e. now apply in_all_entries_collateral. }
        rewrite E in I. unfold same_quadruple. rewrite Hp, Hp'.
        cbn [option_map]. repeat split.
        -- congruence.
        -- apply (book_address (all_entries c) _ (gem col) _ Hfun)
             in Hg; [exact Hg|]. apply I. simpl. tauto.
        -- apply (book_address (all_entries c) _ (adapter col) _ Hfun)
             in Ha; [exact Ha|]. apply I. simpl. tauto.
        -- apply (book_address (all_entries c) _ p _ Hfun) in Hpa;
             [congruence|]. apply I. simpl. tauto.
        -- apply (book_address (all_entries c) _ (flipper col) _ Hfun)
             in Hf; [exact Hf|]. apply I. simpl. tauto.
      * apply get_none in En'. apply En'. apply Hkeys. right.
        exists (Str.replace "-" "_" (name (ilk col)),
                before_hyphen (name (ilk col))).
        split; [apply (book_infer c Hconv); eauto|]. cbn [fst].
        symmetry. now apply rename_back_conventional.
    + destruct (Dict.get (collaterals c') n) as [col'|] eqn:En';
        [|exact I].
      apply get_none in En. apply En.
      assert (Hn : In n (Dict.keys (collaterals c'))).
      { apply get_some_in in En'. apply (in_map fst) in En'. exact En'. }
      apply Hkeys in Hn as [[]|(nm & Hnm & ->)].
      destruct (Hback nm Hnm) as (col & _ & _ & -> & Hi).
      apply (in_map fst) in Hi. exact Hi.
Qed.

(** C8 (as amended): when the configuration follows the naming
    convention and no collateral of some symbol [s] has a price feed,
    [to_dict] gives a book without [PIP_s], [from_json] reads [PIP_s]
    from it, and the round trip raises a [KeyError]. *)
Theorem round_trip_without_feed (w : Web3) (c : Config) (s : string) :
  follows_convention c = true ->
  symbol_without_feed c s = true ->
  exists d,
    to_dict c = Ok d
    /\ Dict.get d ("PIP_" ++ s) = None
    /\ referenced d ("PIP_" ++ s)
    /\ exists k, round_trip w c = Raise (KeyError k).
Proof using json_loads_dumps.
  intros Hconv H. unfold symbol_without_feed in H.
  apply andb_true_iff in H as [Hex Hall].
  apply existsb_exists in Hex as (col & Hcol & Hs).
  apply String.eqb_eq in Hs. rewrite forallb_forall in Hall.
  set (d := assign [] (all_entries c)). exists d.
  assert (Hnone : Dict.get d ("PIP_" ++ s) = None).
  { apply get_none. intros Hin. apply (book_keys c) in Hin.
    unfold all_entries in Hin. rewrite map_app in Hin.
    apply in_app_or in Hin as [Hin|Hin].
    - rewrite fixed_keys_dict in Hin. unfold fixed_keys in Hin.
      cbn [In] in Hin.
      repeat (destruct Hin as [Hin|Hin]; [discriminate Hin|]).
      destruct Hin.
    - apply in_map_iff in Hin as ([k v] & Hk & Hin). cbn [fst] in Hk.
      subst k. apply in_flat_map in Hin as (col' & Hcol' & Hin).
      destruct (conventional_values c col' Hconv Hcol') as [Hc _].
      destruct (conventional_shape _ Hc) as [Hsym _].
      apply is_symbol_inv in Hsym as [_ Hal].
      specialize (Hall col' Hcol'). unfold collateral_entries in Hin.
      destruct Hin as [Hin|Hin].
      + apply pair_equal_spec in Hin as [Hin _].
        rewrite Hin in Hal. discriminate Hal.
      + apply in_app_or in Hin as [Hin|Hin].
        * unfold has_pip in Hall.
          destruct (pip col') as [p|]; [|destruct Hin].
          destruct Hin as [Hin|[]].
          apply pair_equal_spec in Hin as [Hin _].
          injection Hin as Hin. rewrite Hin, String.eqb_refl in Hall.
          discriminate Hall.
        * destruct Hin as [Hin|[Hin|[]]];
            apply pair_equal_spec in Hin as [Hin _]; discriminate Hin. }
  assert (Href : referenced d ("PIP_" ++ s)).
  { right.
    exists (Str.replace "-" "_" (name (ilk col)),
            before_hyphen (name (ilk col))).
    split; [apply (book_infer c Hconv); eauto|].
    unfold collateral_keys. cbn [fst snd]. rewrite Hs. simpl. tauto. }
  split; [now apply book_to_dict|]. split; [exact Hnone|].
  split; [exact Href|]. rewrite (round_trip_book w c Hconv). fold d.
  destruct (from_conf w d) as [c'|e] eqn:E.
  - now destruct (from_conf_ok_referenced w d c' E _ Href).
  - apply from_conf_raise_referenced in E as (k & -> & _). now exists k.
Qed.

End RoundTrip.

(** ** The claims on [to_dict] and [from_json] *)

(** C2 (as amended): when every ilk name starts with a run of word
    characters closed by its first hyphen or its end, and no name of the
    naming convention is given two different addresses, [to_dict]
    returns a dictionary that maps every name of the convention to its
    address, and has no other key. *)
Theorem to_dict_book (c : Config) :
  forallb (fun col => wordy (name (ilk col)))
    (Dict.values (collaterals c)) = true ->
  functionalb (all_entries c) = true ->
  exists d,
    to_dict c = Ok d
    /\ (forall k v, In (k, v) (all_entries c) -> Dict.get d k = Some v)
    /\ (forall k, In k (Dict.keys d) -> In k (map fst (all_entries c)))
    /\ NoDup (Dict.keys d).
Proof.
  intros Hw Hf. rewrite forallb_forall in Hw.
  apply functionalb_sound in Hf.
  exists (assign [] (all_entries c)). split; [now apply to_dict_wordy|].
  split; [intros k v; now apply get_assign_in|].
  split; [|apply NoDup_assign; constructor].
  intros k Hk. apply keys_assign in Hk as [Hk|[]]. exact Hk.
Qed.

(** C3: every collateral [from_json] builds has its four handles at
    the addresses the book gives under the names of its inferred pair. *)
Theorem from_json_quadruple (w : Web3) (text : string) (cfg : Config) :
  from_json w text = Ok cfg ->
  exists conf,
    json_loads text = Some conf
    /\ forall k col,
         In (k, col) (collaterals cfg) ->
         exists N S,
           In (N, S) (_infer_collaterals_from_addresses (Dict.keys conf))
           /\ k = Str.replace "_" "-" N
           /\ name (ilk col) = k
           /\ quadruple_of conf (N, S) col.
Proof.
  unfold from_json. destruct (json_loads text) as [conf|]; [|discriminate].
  intros H. exists conf. split; [reflexivity|]. intros k col Hin.
  apply from_conf_inv in H as [_ H]. rewrite collaterals_of_loop in H.
  apply loop_ok in H as (_ & H & _).
  destruct (H k col Hin) as [[]|([N S] & Hnm & Hof & ->)].
  apply collateral_of_inv in Hof as (Hname & Hq & _).
  exists N, S. auto.
Qed.

Lemma required_referenced conf k : required conf k -> referenced conf k.
Proof.
  clear json_loads json_dumps Address_of address_str Address.
  intros [H|(N & S & Hin & H)]; [now left|]. right. exists (N, S).
  split; [exact Hin|]. unfold collateral_keys. cbn [fst snd In].
  destruct H as [ -> | [ -> | -> ] ]; tauto.
Qed.

(** C4: on a parsed address book, [from_json] raises a [KeyError] when
    a required name is absent, and returns a configuration when every
    name it reads is present. *)
Theorem from_json_missing_key (w : Web3) (text : string)
    (conf : Dict.t string) :
  json_loads text = Some conf ->
  ((exists k, required conf k /\ Dict.get conf k = None) ->
   exists k', from_json w text = Raise (KeyError k')
              /\ Dict.get conf k' = None)
  /\ ((forall k, referenced conf k -> Dict.get conf k <> None) ->
      exists cfg, from_json w text = Ok cfg).
Proof.
  intros Hl. unfold from_json. rewrite Hl. split.
  - intros (k & Hk & Hn). destruct (from_conf w conf) as [cfg|e] eqn:E.
    + apply required_referenced in Hk.
      now destruct (from_conf_ok_referenced w conf cfg E k Hk).
    + apply from_conf_raise_referenced in E as (k' & -> & _ & Hn').
      now exists k'.
  - apply from_conf_total.
Qed.

(** C5 (as amended): the inferred names are the contributions of the
    keys, one by one; a key contributes nothing when [MCD_FLIP_] followed
    by a word character occurs nowhere in it, and otherwise one pair: a
    run [N] of word characters that follows [MCD_FLIP_] in the key, with
    the symbol [symbol_of N]; and [from_json] stores one collateral under
    each ilk-part with its underscores written as hyphens, built from a
    returned pair. *)
Theorem collaterals_by_pattern :
  (forall keys,
      _infer_collaterals_from_addresses keys = flat_map contribution keys)
  /\ (forall key,
        contribution key = [] <->
        (forall pre c rest,
            key = pre ++ "MCD_FLIP_" ++ String c rest -> is_word c = false))
  /\ (forall key,
        contribution key = []
        \/ exists N pre post,
             contribution key = [(N, symbol_of N)]
             /\ key = pre ++ "MCD_FLIP_" ++ N ++ post
             /\ N <> "" /\ Str.all is_word N = true
             /\ boundary post = true)
  /\ (forall w conf cfg,
        from_conf w conf = Ok cfg ->
        NoDup (Dict.keys (collaterals cfg))
        /\ (forall k,
              In k (Dict.keys (collaterals cfg)) <->
              exists nm,
                In nm (_infer_collaterals_from_addresses (Dict.keys conf))
                /\ k = Str.replace "_" "-" (fst nm))
        /\ (forall k col,
              In (k, col) (collaterals cfg) ->
              exists nm,
                In nm (_infer_collaterals_from_addresses (Dict.keys conf))
                /\ collateral_of w conf (vat cfg) nm = Ok col
                /\ k = Str.replace "_" "-" (fst nm))).
Proof.
  split; [exact infer_flat_map|]. split; [|split].
  - intros key. rewrite <- infer_key_none. unfold contribution.
    destruct (infer_key key); split; congruence.
  - intros key. unfold contribution.
    destruct (infer_key key) as [[N S]|] eqn:E; [right|now left].
    apply infer_key_spec in E as (pre & post & -> & Hne & Hw & Hp & ->).
    exists N, pre, post. auto.
  - intros w conf cfg H. apply from_conf_inv in H as [_ H].
    rewrite collaterals_of_loop in H.
    apply loop_ok in H as (_ & Hfrom & Hkeys & Hnd).
    split; [apply Hnd; constructor|]. split.
    + intros k. rewrite Hkeys. split.
      * intros [[]|H]. exact H.
      * intros H. now right.
    + intros k col Hin. destruct (Hfrom k col Hin) as [[]|H]. exact H.
Qed.

(** C9 (as amended): for a key [MCD_FLIP_p_q] where [p] and [q] are runs
    of word characters, not empty, and no underscore of [q] is followed
    by a character, the inferred symbol is [p]: the suffix up to its last
    underscore, not up to its first. *)
Theorem greedy_symbol (p q : string) :
  p <> "" -> Str.all is_word p = true ->
  q <> "" -> Str.all is_word q = true -> inner_free q = true ->
  _infer_collaterals_from_addresses ["MCD_FLIP_" ++ p ++ "_" ++ q]
  = [(p ++ "_" ++ q, p)].
Proof.
  intros Hp Wp Hq Wq Fq. rewrite infer_flat_map. cbn [flat_map].
  unfold contribution. now rewrite infer_key_greedy.
Qed.

(** ** The deployment object *)

Lemma endswith_char_app (c : ascii) (x y : string) :
  y <> "" -> Str.endswith_char c (x ++ y) = Str.endswith_char c y.
Proof.
  intros Hy. induction x as [|a x IH]; [reflexivity|].
  cbn [append Str.endswith_char]. rewrite IH.
  destruct (x ++ y) eqn:E; [|reflexivity].
  destruct x; simpl in E; [congruence|discriminate].
Qed.

Lemma eqb_app_empty (x y : string) :
  y <> "" -> String.eqb (x ++ y) "" = false.
Proof.
  intros Hy. apply String.eqb_neq. intros E.
  destruct x; simpl in E; [congruence|discriminate].
Qed.

(** The path of the address book ends in [../config/<file>]. *)
Lemma path_join_config (dir file : string) :
  Str.startswith "/" file = false ->
  exists pre, path_join dir ["../config"; file]
              = pre ++ "../config/" ++ file.
Proof.
  intros Hf. unfold path_join. cbn [fold_left].
  change (Str.startswith "/" "../config") with false. cbv iota.
  rewrite Hf.
  destruct (String.eqb dir "" || Str.endswith_char "/" dir)%bool.
  - exists dir.
    rewrite eqb_app_empty, endswith_char_app by discriminate.
    cbn [orb]. change (Str.endswith_char "/" "../config") with false.
    cbv iota. now rewrite append_assoc.
  - exists (dir ++ "/").
    rewrite eqb_app_empty, endswith_char_app by discriminate.
    cbn [orb]. change (Str.endswith_char "/" ("/" ++ "../config")) with false.
    cbv iota. now rewrite !append_assoc.
Qed.

(** C6: [from_node] takes the network [mainnet] for the version [1],
    [kovan] for [42] and [testnet] for every other version, and
    [from_network] reads the file [../config/<network>-addresses.json],
    from the directory of the module, and hands its text to
    [from_json]. *)
Theorem from_node_by_network (h : Host) (w : Web3) :
  let network :=
    if String.eqb (net_version w) "1" then "mainnet"
    else if String.eqb (net_version w) "42" then "kovan"
    else "testnet" in
  from_node h w = from_network h w network
  /\ exists dir,
       from_network h w network
       = (conf <-
            open_read h
              (dir ++ "../config/" ++ network ++ "-addresses.json") ;;
          config <- from_json w conf ;;
          Ok (DssDeployment_init w config)).
Proof.
  intros network. split.
  - unfold from_node, network_of, NETWORKS, network. cbn [Dict.get].
    destruct (String.eqb (net_version w) "1"); [reflexivity|].
    now destruct (String.eqb (net_version w) "42").
  - unfold from_network, DssDeployment_from_json.
    destruct (path_join_config (module_dir h)
                (network ++ "-addresses.json")) as (pre & E).
    { unfold network.
      destruct (String.eqb (net_version w) "1"); [reflexivity|].
      now destruct (String.eqb (net_version w) "42"). }
    exists pre. cbv zeta. now rewrite E.
Qed.

(** C7: the deployment object has the handles of its configuration as
    its fields, and its [to_json] is the one of the configuration. *)
Theorem deployment_exposes_config (w : Web3) (config : Config) :
  let d := DssDeployment_init w config in
  d_web3 d = w /\ d_config d = config
  /\ d_pause d = pause config /\ d_vat d = vat config
  /\ d_vow d = vow config /\ d_jug d = jug config
  /\ d_cat d = cat config /\ d_flapper d = flapper config
  /\ d_flopper d = flopper config /\ d_pot d = pot config
  /\ d_dai d = dai config /\ d_dai_adapter d = dai_join config
  /\ d_mkr d = mkr config /\ d_collaterals d = collaterals config
  /\ d_spotter d = spotter config /\ d_ds_chief d = ds_chief config
  /\ d_esm d = esm config /\ d_end d = end_ config
  /\ d_proxy_registry d = proxy_registry config
  /\ d_dss_proxy_actions d = dss_proxy_actions config
  /\ d_cdp_manager d = cdp_manager config
  /\ d_dsr_manager d = dsr_manager config
  /\ DssDeployment_to_json d = to_json config.
Proof. cbv zeta. repeat split. Qed.

(** ** [to_dict] on any configuration *)

Lemma word_run_split (n : string) :
  exists post, n = word_run n ++ post
               /\ Str.all is_word (word_run n) = true
               /\ boundary post = true.
Proof.
  induction n as [|c t (post & Hn & Hw & Hp)].
  - now exists "".
  - cbn [word_run]. destruct (is_word c) eqn:W.
    + exists post. cbn [append Str.all]. rewrite W, Hw. cbn [andb].
      repeat split; [congruence|exact Hp].
    + exists (String c t). cbn [append Str.all boundary]. now rewrite W.
Qed.

Lemma match_here_re_ilk_nonword (c : ascii) (t : string) :
  is_word c = false -> match_here re_ilk (String c t) = None.
Proof.
  intros W. unfold match_here, re_ilk. cbn [rmatch]. unfold word_plus.
  now rewrite W.
Qed.

Lemma first_word_nameless (n : string) :
  first_word n = "" <-> Str.all (fun ch => negb (is_word ch)) n = true.
Proof.
  unfold first_word. induction n as [|c t IH]; [now split|].
  cbn [skip_nonword Str.all]. destruct (is_word c) eqn:W.
  - cbn [word_run negb andb]. rewrite W. split; discriminate.
  - cbn [negb andb]. exact IH.
Qed.

(** The ilk pattern finds the first run of word characters. *)
Lemma search_re_ilk_first (n : string) :
  match search re_ilk n with
  | Some g => group g 1 = first_word n /\ first_word n <> ""
  | None => first_word n = ""
  end.
Proof.
  unfold first_word. induction n as [|c t IH]; [reflexivity|].
  cbn [skip_nonword]. destruct (is_word c) eqn:W.
  - destruct (word_run_split (String c t)) as (post & Hn & Hw & Hp).
    assert (Hne : word_run (String c t) <> "").
    { cbn [word_run]. rewrite W. discriminate. }
    destruct (search_re_ilk _ post Hne Hw Hp) as (g & Hg & H1).
    rewrite <- Hn in Hg. rewrite Hg. now split.
  - rewrite search_skip by now apply match_here_re_ilk_nonword. exact IH.
Qed.

Lemma put_collateral_written (d : Dict.t string) (col : Collateral) :
  put_collateral d col =
  if nameless col then Raise AttributeError
  else Ok (assign d (written_entries col)).
Proof.
  unfold put_collateral, written_entries, nameless.
  pose proof (search_re_ilk_first (name (ilk col))) as H.
  destruct (search re_ilk (name (ilk col))) as [g|].
  - destruct H as [H1 Hne]. rewrite H1.
    destruct (Str.all _ (name (ilk col))) eqn:E.
    + apply first_word_nameless in E. congruence.
    + cbn [fst snd]. now destruct (pip col).
  - apply first_word_nameless in H. now rewrite H.
Qed.

Lemma to_dict_loop_raised (cols : list Collateral) e :
  fold_left
    (fun acc collateral =>
       conf_dict <- acc ;; put_collateral conf_dict collateral)
    cols (Raise e) = Raise e.
Proof. induction cols; simpl; auto. Qed.

Lemma to_dict_loop_written (cols : list Collateral) (d : Dict.t string) :
  fold_left
    (fun acc collateral =>
       conf_dict <- acc ;; put_collateral conf_dict collateral)
    cols (Ok d)
  = if existsb nameless cols then Raise AttributeError
    else Ok (assign d (flat_map written_entries cols)).
Proof.
  revert d. induction cols as [|col cols IH]; intros d; [reflexivity|].
  cbn [fold_left bind flat_map existsb]. rewrite put_collateral_written.
  destruct (nameless col); cbn [orb].
  - apply to_dict_loop_raised.
  - rewrite IH. destruct (existsb nameless cols); [reflexivity|].
    now rewrite assign_app.
Qed.

Lemma to_dict_written (c : Config) :
  to_dict c =
  if existsb nameless (Dict.values (collaterals c))
  then Raise AttributeError
  else Ok (assign [] (written c)).
Proof.
  unfold to_dict, written. rewrite to_dict_loop_written.
  destruct (existsb _ _); [reflexivity|]. now rewrite assign_app.
Qed.

Lemma get_assign_last (d : Dict.t string) es k :
  Dict.get (assign d es) k =
  match last_written es k with
  | Some v => Some v
  | None => Dict.get d k
  end.
Proof.
  unfold last_written. induction es as [|[k1 v1] es IH] using rev_ind.
  - reflexivity.
  - rewrite assign_app, rev_unit. cbn [assign fold_left find fst snd].
    destruct (String.eqb k1 k) eqn:E.
    + apply String.eqb_eq in E. subst k1. cbn [option_map snd].
      apply get_set_eq.
    + rewrite get_set_neq; [exact IH|].
      intros ->. now rewrite String.eqb_refl in E.
Qed.

(** X1: [to_dict] raises [AttributeError] exactly when the ilk name of
    some collateral has no word character, raises nothing else, and
    returns a dictionary otherwise. *)
Theorem to_dict_attribute_error (c : Config) :
  (to_dict c = Raise AttributeError <->
   exists col, In col (Dict.values (collaterals c))
               /\ Str.all (fun ch => negb (is_word ch)) (name (ilk col))
                  = true)
  /\ (forall e, to_dict c = Raise e -> e = AttributeError)
  /\ ((exists d, to_dict c = Ok d) <->
      forall col, In col (Dict.values (collaterals c)) ->
                  Str.all (fun ch => negb (is_word ch)) (name (ilk col))
                  = false).
Proof.
  rewrite to_dict_written.
  destruct (existsb nameless (Dict.values (collaterals c))) eqn:E.
  - apply existsb_exists in E as (col & Hin & Hn). unfold nameless in Hn.
    split; [split; [intros _; now exists col|reflexivity]|].
    split; [intros e H; congruence|].
    split; [intros (d & H); discriminate|].
    intros H. rewrite (H col Hin) in Hn. discriminate.
  - split.
    + split; [discriminate|]. intros (col & Hin & Hn).
      assert (existsb nameless (Dict.values (collaterals c)) = true)
        by (apply existsb_exists; now exists col).
      congruence.
    + split; [discriminate|]. split; [|intros _; eauto].
      intros _ col Hin. destruct (Str.all _ (name (ilk col))) eqn:Hn;
        [|reflexivity].
      assert (existsb nameless (Dict.values (collaterals c)) = true)
        by (apply existsb_exists; now exists col).
      congruence.
Qed.

(** X2: the dictionary [to_dict] returns has the written names as its
    keys, each once, and maps a name to the address written last under
    it: of two collaterals that share a name, the later one is kept. *)
Theorem to_dict_last_writer (c : Config) (d : Dict.t string) :
  to_dict c = Ok d ->
  NoDup (Dict.keys d)
  /\ (forall k, In k (Dict.keys d) <-> In k (map fst (written c)))
  /\ (forall k, Dict.get d k = last_written (written c) k).
Proof.
  clear json_loads Address_of.
  rewrite to_dict_written. destruct (existsb _ _); [discriminate|].
  intros H. apply Ok_inj in H. subst d.
  split; [apply NoDup_assign; constructor|]. split.
  - intros k. rewrite keys_assign. cbn [Dict.keys map In]. tauto.
  - intros k. rewrite get_assign_last.
    now destruct (last_written (written c) k).
Qed.

(** ** The exception of [from_json] *)

Lemma find_app {A} (f : A -> bool) (l1 l2 : list A) :
  find f (l1 ++ l2)%list =
  match find f l1 with
  | Some x => Some x
  | None => find f l2
  end.
Proof.
  induction l1 as [|a l1 IH]; [reflexivity|]. simpl.
  now destruct (f a).
Qed.

Lemma collateral_of_first_missing w conf vt nm :
  match find (absent conf) (collateral_keys nm) with
  | Some k => collateral_of w conf vt nm = Raise (KeyError k)
  | None => exists col, collateral_of w conf vt nm = Ok col
  end.
Proof.
  unfold collateral_of, getitem, collateral_keys, absent. cbn [find].
  destruct (Dict.get conf (snd nm)); cbn [bind]; [|reflexivity].
  destruct (Dict.get conf ("MCD_JOIN_" ++ fst nm)); cbn [bind];
    [|reflexivity].
  destruct (Dict.get conf ("PIP_" ++ snd nm)); cbn [bind]; [|reflexivity].
  destruct (Dict.get conf ("MCD_FLIP_" ++ fst nm)); cbn [bind];
    [|reflexivity].
  eexists. reflexivity.
Qed.

Lemma loop_first_missing w conf vt names d :
  match find (absent conf) (flat_map collateral_keys names) with
  | Some k => collaterals_loop w conf vt names (Ok d) = Raise (KeyError k)
  | None => exists tbl, collaterals_loop w conf vt names (Ok d) = Ok tbl
  end.
Proof.
  revert d. induction names as [|nm names IH]; intros d.
  - now exists d.
  - cbn [flat_map]. rewrite find_app, loop_cons.
    pose proof (collateral_of_first_missing w conf vt nm) as H.
    destruct (find (absent conf) (collateral_keys nm)) as [k|].
    + now rewrite H.
    + destruct H as (col & ->). apply IH.
Qed.

Ltac next_key k :=
  destruct (Dict.get _ k); cbn [bind]; [|reflexivity].

Lemma from_conf_first_missing w conf :
  match first_missing conf with
  | Some k => from_conf w conf = Raise (KeyError k)
  | None => exists cfg, from_conf w conf = Ok cfg
  end.
Proof.
  unfold first_missing, reads. rewrite find_app.
  unfold from_conf, getitem, read_order, absent. cbn [find].
  next_key "MCD_PAUSE". next_key "MCD_VAT". next_key "MCD_VOW".
  next_key "MCD_JUG". next_key "MCD_CAT". next_key "MCD_DAI".
  next_key "MCD_JOIN_DAI". next_key "MCD_FLAP". next_key "MCD_FLOP".
  next_key "MCD_POT". next_key "MCD_GOV". next_key "MCD_SPOT".
  next_key "MCD_ADM". next_key "MCD_ESM". next_key "MCD_END".
  next_key "PROXY_REGISTRY". next_key "PROXY_ACTIONS_DSR".
  next_key "CDP_MANAGER". next_key "DSR_MANAGER".
  match goal with
  | |- context [collaterals_of ?a ?b ?c ?d] =>
      pose proof (loop_first_missing a b c d []) as H;
      rewrite <- collaterals_of_loop in H
  end.
  fold (absent conf).
  destruct (find (absent conf) _) as [k|].
  - now rewrite H.
  - destruct H as (tbl & ->). eexists. reflexivity.
Qed.

(** X3: on a parsed address book, [from_json] raises the [KeyError] of
    the first name, in the order it reads them, that the book does not
    have, and returns a configuration when there is none. *)
Theorem from_json_first_missing_key (w : Web3) (text : string)
    (conf : Dict.t string) :
  json_loads text = Some conf ->
  match first_missing conf with
  | Some k => from_json w text = Raise (KeyError k)
  | None => exists cfg, from_json w text = Ok cfg
  end.
Proof.
  intros H. unfold from_json. rewrite H. apply from_conf_first_missing.
Qed.

(** ** The classes [from_json] instantiates *)

Lemma collateral_of_classes w conf vt nm col :
  collateral_of w conf vt nm = Ok col ->
  class (gem col) = gem_class (snd nm)
  /\ class (adapter col) = adapter_class (snd nm)
  /\ class (flipper col) = Flipper
  /\ option_map class (pip col)
     = Some (pip_class (net_version w) (snd nm))
  /\ web3 (gem col) = w /\ web3 (adapter col) = w
  /\ web3 (flipper col) = w /\ option_map web3 (pip col) = Some w.
Proof.
  unfold collateral_of, getitem, gem_class, adapter_class, pip_class.
  destruct (Dict.get conf (snd nm)); [|discriminate]. cbn [bind].
  destruct (Dict.get conf ("MCD_JOIN_" ++ fst nm)); [|discriminate].
  cbn [bind].
  destruct (Dict.get conf ("PIP_" ++ snd nm)); [|discriminate]. cbn [bind].
  destruct (Dict.get conf ("MCD_FLIP_" ++ fst nm)); [|discriminate].
  cbn [bind]. intros H. apply Ok_inj in H. subst col.
  cbn [gem adapter flipper pip option_map].
  split; [now destruct (String.eqb (snd nm) "ETH")|].
  split; [now destruct (existsb _ _)|]. split; [reflexivity|].
  split.
  { unfold network_of, NETWORKS. cbn [Dict.get].
    destruct (String.eqb (net_version w) "1"); cbn [orb].
    - change (String.eqb "mainnet" "testnet") with false. cbv iota.
      now destruct (Str.startswith "UNIV2" (snd nm)).
    - destruct (String.eqb (net_version w) "42").
      + change (String.eqb "kovan" "testnet") with false. cbv iota.
        now destruct (Str.startswith "UNIV2" (snd nm)).
      + reflexivity. }
  split; [now destruct (String.eqb (snd nm) "ETH")|].
  split; [now destruct (existsb _ _)|]. split; [reflexivity|].
  destruct (String.eqb _ "testnet"); [reflexivity|].
  now destruct (Str.startswith "UNIV2" (snd nm)).
Qed.

Lemma from_conf_fixed_classes w conf cfg :
  from_conf w conf = Ok cfg ->
  map (fun e => class (snd e)) (fixed_handles cfg) = fixed_classes
  /\ forall k h, In (k, h) (fixed_handles cfg) -> web3 h = w.
Proof.
  unfold from_conf, getitem. intros H. read_fixed H.
  match type of H with
  | context [collaterals_of ?a ?b ?c ?d] =>
      destruct (collaterals_of a b c d) as [tbl|] eqn:EC;
      cbn [bind] in H; [|discriminate H]
  end.
  apply Ok_inj in H. subst cfg. split; [reflexivity|].
  intros k h Hin. unfold fixed_handles in Hin. cbn [In] in Hin.
  repeat (destruct Hin as [Hin|Hin];
          [apply pair_equal_spec in Hin as [_ <-]; reflexivity|]).
  destruct Hin.
Qed.

(** X4: in the configuration [from_json] returns, the fixed handles have
    the classes of the source, every handle is on the given [web3], and
    the handles of a collateral have the classes its symbol selects: a
    [DSEthToken] gem for [ETH], a [GemJoin5] adapter for the six listed
    tokens, and a price feed that is a [DSValue] off networks 1 and 42,
    and there a [Univ2LpOSM] for a symbol that starts with [UNIV2] and an
    [OSM] for any other. *)
Theorem from_json_classes (w : Web3) (text : string) (cfg : Config) :
  from_json w text = Ok cfg ->
  exists conf,
    json_loads text = Some conf
    /\ map (fun e => class (snd e)) (fixed_handles cfg) = fixed_classes
    /\ (forall k h, In (k, h) (fixed_handles cfg) -> web3 h = w)
    /\ forall k col,
         In (k, col) (collaterals cfg) ->
         exists N S,
           In (N, S) (_infer_collaterals_from_addresses (Dict.keys conf))
           /\ k = Str.replace "_" "-" N
           /\ class (gem col) = gem_class S
           /\ class (adapter col) = adapter_class S
           /\ class (flipper col) = Flipper
           /\ option_map class (pip col)
              = Some (pip_class (net_version w) S)
           /\ web3 (gem col) = w /\ web3 (adapter col) = w
           /\ web3 (flipper col) = w
           /\ option_map web3 (pip col) = Some w.
Proof.
  unfold from_json. destruct (json_loads text) as [conf|]; [|discriminate].
  intros H. exists conf. split; [reflexivity|].
  destruct (from_conf_fixed_classes w conf cfg H) as [Hc Hw].
  split; [exact Hc|]. split; [exact Hw|]. intros k col Hin.
  apply from_conf_inv in H as [_ H]. rewrite collaterals_of_loop in H.
  apply loop_ok in H as (_ & H & _).
  destruct (H k col Hin) as [[]|([N S] & Hnm & Hof & ->)].
  exists N, S. split; [exact Hnm|]. split; [reflexivity|].
  exact (collateral_of_classes _ _ _ _ _ Hof).
Qed.

(** ** [from_json] reads the names it reads, and no other *)

Lemma collateral_of_ext w conf1 conf2 vt nm :
  (forall k, In k (collateral_keys nm) ->
             Dict.get conf1 k = Dict.get conf2 k) ->
  collateral_of w conf1 vt nm = collateral_of w conf2 vt nm.
Proof.
  clear json_loads json_dumps address_str.
  intros H. unfold collateral_of, getitem.
  rewrite (H (snd nm)), (H ("MCD_JOIN_" ++ fst nm)),
    (H ("PIP_" ++ snd nm)), (H ("MCD_FLIP_" ++ fst nm));
    [reflexivity|unfold collateral_keys; cbn [In]; tauto ..].
Qed.

Lemma loop_ext w conf1 conf2 vt names acc :
  (forall nm, In nm names ->
              collateral_of w conf1 vt nm = collateral_of w conf2 vt nm) ->
  collaterals_loop w conf1 vt names acc
  = collaterals_loop w conf2 vt names acc.
Proof.
  revert acc. induction names as [|nm names IH]; intros acc H;
    [reflexivity|].
  unfold collaterals_loop. cbn [fold_left].
  rewrite (H nm (or_introl eq_refl)).
  apply IH. intros nm' Hin. apply H. now right.
Qed.

(** Two books with the same inferred names and the same entries under
    the names that are read give the same result. *)
Lemma from_conf_frame w conf1 conf2 :
  _infer_collaterals_from_addresses (Dict.keys conf1)
  = _infer_collaterals_from_addresses (Dict.keys conf2) ->
  (forall k, referenced conf1 k -> Dict.get conf1 k = Dict.get conf2 k) ->
  from_conf w conf1 = from_conf w conf2.
Proof.
  clear json_loads json_dumps.
  intros Hn Hg.
  assert (Hf : forall k, In k fixed_keys ->
                         Dict.get conf1 k = Dict.get conf2 k).
  { intros k Hk. apply Hg. now left. }
  assert (Hl : forall vt,
             collaterals_of w conf1 vt
               (_infer_collaterals_from_addresses (Dict.keys conf1))
             = collaterals_of w conf2 vt
                 (_infer_collaterals_from_addresses (Dict.keys conf2))).
  { intros vt. rewrite <- Hn, !collaterals_of_loop. apply loop_ext.
    intros nm Hnm. apply collateral_of_ext. intros k Hk. apply Hg.
    right. now exists nm. }
  unfold from_conf, getitem.
  rewrite (Hf "MCD_PAUSE"), (Hf "MCD_VAT"), (Hf "MCD_VOW"), (Hf "MCD_JUG"),
    (Hf "MCD_CAT"), (Hf "MCD_DAI"), (Hf "MCD_JOIN_DAI"), (Hf "MCD_FLAP"),
    (Hf "MCD_FLOP"), (Hf "MCD_POT"), (Hf "MCD_GOV"), (Hf "MCD_SPOT"),
    (Hf "MCD_ADM"), (Hf "MCD_ESM"), (Hf "MCD_END"), (Hf "PROXY_REGISTRY"),
    (Hf "PROXY_ACTIONS_DSR"), (Hf "CDP_MANAGER"), (Hf "DSR_MANAGER")
    by (unfold fixed_keys; cbn [In]; intuition).
  repeat match goal with
         | |- context [Dict.get conf2 ?k] =>
             destruct (Dict.get conf2 k); cbn [bind]; [|reflexivity]
         end.
  now rewrite Hl.
Qed.

Lemma keys_set_present {V} (d : Dict.t V) k v :
  Dict.get d k <> None -> Dict.keys (Dict.set d k v) = Dict.keys d.
Proof.
  unfold Dict.keys. induction d as [|[k1 v1] d IH]; simpl; [congruence|].
  destruct (String.eqb k k1); simpl; [reflexivity|].
  intros H. now rewrite IH.
Qed.

Lemma keys_set_absent {V} (d : Dict.t V) k v :
  Dict.get d k = None ->
  Dict.keys (Dict.set d k v) = (Dict.keys d ++ [k])%list.
Proof.
  unfold Dict.keys. induction d as [|[k1 v1] d IH]; simpl; [reflexivity|].
  destruct (String.eqb k k1); simpl; [discriminate|].
  intros H. now rewrite IH.
Qed.

(** X5: an entry of the address book under a name that [from_json] does
    not read, and that does not add an inferred name, does not matter:
    adding it, or changing its address, gives the same result. *)
Theorem from_json_ignores_unread (w : Web3) (text1 text2 : string)
    (conf : Dict.t string) (k v : string) :
  json_loads text1 = Some conf ->
  json_loads text2 = Some (Dict.set conf k v) ->
  Dict.get conf k <> None \/ infer_key k = None ->
  ~ referenced conf k ->
  from_json w text2 = from_json w text1.
Proof.
  intros H1 H2 Hk Hr. unfold from_json. rewrite H1, H2.
  assert (Hn : _infer_collaterals_from_addresses
                 (Dict.keys (Dict.set conf k v))
               = _infer_collaterals_from_addresses (Dict.keys conf)).
  { destruct (Dict.get conf k) eqn:E.
    - now rewrite keys_set_present by congruence.
    - destruct Hk as [Hk|Hk]; [congruence|].
      rewrite keys_set_absent by exact E.
      rewrite infer_app, (infer_flat_map [k]). cbn [flat_map].
      unfold contribution. rewrite Hk. cbn [app]. apply app_nil_r. }
  symmetry. apply from_conf_frame; [now rewrite Hn|].
  intros k' Hk'. symmetry. apply get_set_neq. intros ->. now apply Hr.
Qed.

(** ** [to_dict] after [from_json] *)

Lemma symbol_of_conventional (n : string) :
  conventional n = true ->
  symbol_of (Str.replace "-" "_" n) = before_hyphen n.
Proof.
  intros H.
  destruct (conventional_shape n H) as [Hs [[_ ->]|(t & Ht & _ & ->)]];
    apply is_symbol_inv in Hs as [Hne As];
    destruct (before_hyphen n) as [|c s]; try congruence;
    cbn [Str.all] in As; apply andb_true_iff in As as [_ As].
  - unfold symbol_of.
    now rewrite (cut_inner_free s (all_alnum_inner_free s As)).
  - apply is_symbol_inv in Ht as [Hnt At].
    cbn [append]. unfold symbol_of.
    now rewrite (cut_app s t (all_alnum_inner_free t At) Hnt
                 : cut (s ++ String "_" t) = _).
Qed.

Lemma infer_pair_shape (keys : list string) (nm : string * string) :
  In nm (_infer_collaterals_from_addresses keys) ->
  snd nm = symbol_of (fst nm)
  /\ Str.replace "-" "_" (Str.replace "_" "-" (fst nm)) = fst nm.
Proof.
  intros H. destruct nm as [N S]. apply In_infer in H as (key & _ & H).
  apply infer_key_spec in H as (_ & _ & _ & _ & Hw & _ & ->).
  split; [reflexivity|]. cbn [fst]. apply replace_back.
  now apply word_no_hyphen.
Qed.

Section Reload.
Variable w : Web3.
Variable conf : Dict.t string.
Variable cfg : Config.
Hypothesis Hload : from_conf w conf = Ok cfg.
Hypothesis Hsimple : simple_names conf = true.

(** The entry is the one of the book, with its address rebuilt. *)
Let of_book (e : string * string) : Prop :=
  referenced conf (fst e)
  /\ option_map normal (Dict.get conf (fst e)) = Some (snd e).

Lemma reload_collateral (k : string) (col : Collateral) :
  In (k, col) (collaterals cfg) ->
  exists nm,
    In nm (_infer_collaterals_from_addresses (Dict.keys conf))
    /\ k = Str.replace "_" "-" (fst nm)
    /\ conventional (name (ilk col)) = true
    /\ (forall k', In k' (map fst (collateral_entries col)) <->
                    In k' (collateral_keys nm))
    /\ forall e, In e (collateral_entries col) -> of_book e.
Proof using Hload Hsimple. clear json_loads json_dumps.
  intros Hin.
  destruct (from_conf_inv w conf cfg Hload) as [_ Hl].
  rewrite collaterals_of_loop in Hl.
  apply loop_ok in Hl as (_ & Hfrom & _).
  destruct (Hfrom k col Hin) as [[]|(nm & Hnm & Hof & Hk0)].
  destruct (infer_pair_shape _ _ Hnm) as [Hs Hback].
  unfold simple_names in Hsimple. rewrite forallb_forall in Hsimple.
  pose proof (Hsimple nm Hnm) as Hc.
  apply collateral_of_inv in Hof as (Hname & Hq & Hk).
  destruct Hq as (Hg & Ha & (p & Hp & Hpa) & Hf).
  rewrite <- Hname in Hc.
  assert (Hsym : before_hyphen (name (ilk col)) = snd nm).
  { rewrite Hs, <- (symbol_of_conventional _ Hc), Hname. now rewrite Hback. }
  assert (Hund : Str.replace "-" "_" (name (ilk col)) = fst nm).
  { now rewrite Hname. }
  exists nm. split; [exact Hnm|]. split; [exact Hk0|]. split; [exact Hc|].
  unfold collateral_entries. rewrite Hp, Hsym, Hund.
  split; [intros k'; unfold collateral_keys; cbn [app map fst In]; tauto|].
  assert (Hr : forall k', In k' (collateral_keys nm) -> referenced conf k').
  { intros k' Hk'. right. now exists nm. }
  unfold collateral_keys in Hr. cbn [In] in Hr.
  unfold of_book, normal, addr.
  intros e [<-|[<-|[<-|[<-|[]]]]]; cbn [fst snd]; (split; [auto 6|]).
  - destruct (Dict.get conf (snd nm)); [|discriminate].
    cbn [option_map] in *. congruence.
  - destruct (Dict.get conf ("PIP_" ++ snd nm)); [|discriminate].
    cbn [option_map] in *. congruence.
  - destruct (Dict.get conf ("MCD_JOIN_" ++ fst nm)); [|discriminate].
    cbn [option_map] in *. congruence.
  - destruct (Dict.get conf ("MCD_FLIP_" ++ fst nm)); [|discriminate].
    cbn [option_map] in *. congruence.
Qed.

Lemma reload_entries (e : string * string) :
  In e (all_entries cfg) -> of_book e.
Proof using Hload Hsimple.
  unfold all_entries. intros Hin. apply in_app_or in Hin as [Hin|Hin].
  - rewrite fixed_dict_handles in Hin.
    apply in_map_iff in Hin as ([k h] & <- & Hin). cbn [fst snd].
    destruct (from_conf_inv w conf cfg Hload) as [Hfix _].
    specialize (Hfix k h Hin). unfold of_book, normal, addr. cbn [fst snd].
    split.
    + left. rewrite <- (fixed_keys_dict cfg), fixed_dict_handles, map_map.
      cbn [fst]. apply (in_map fst) in Hin. exact Hin.
    + destruct (Dict.get conf k); [|discriminate].
      cbn [option_map] in *. congruence.
  - apply in_flat_map in Hin as (col & Hcol & Hin).
    apply in_values in Hcol as (k & Hcol).
    destruct (reload_collateral k col Hcol) as (_ & _ & _ & _ & _ & H).
    now apply H.
Qed.

Lemma reload_referenced (k : string) :
  referenced conf k -> In k (map fst (all_entries cfg)).
Proof using Hload Hsimple.
  unfold all_entries. rewrite map_app. intros [Hk|(nm & Hnm & Hk)].
  - apply in_or_app. left. now rewrite fixed_keys_dict.
  - apply in_or_app. right.
    destruct (from_conf_inv w conf cfg Hload) as [_ Hl].
    rewrite collaterals_of_loop in Hl.
    apply loop_ok in Hl as (_ & _ & Hkeys & _).
    assert (Hin : In (Str.replace "_" "-" (fst nm))
                    (Dict.keys (collaterals cfg))).
    { apply Hkeys. right. now exists nm. }
    apply in_map_iff in Hin as ([k' col] & Hk' & Hin). cbn [fst] in Hk'.
    destruct (reload_collateral k' col Hin)
      as (nm' & Hnm' & Hk2 & _ & Hkeys' & _).
    destruct (infer_pair_shape _ _ Hnm) as [Hs Hb].
    destruct (infer_pair_shape _ _ Hnm') as [Hs' Hb'].
    assert (E : fst nm' = fst nm).
    { rewrite <- Hb', <- Hb. f_equal. congruence. }
    assert (nm' = nm).
    { destruct nm', nm. cbn [fst snd] in *. congruence. }
    subst nm'. rewrite flat_map_concat_map, concat_map, map_map.
    apply in_concat. exists (map fst (collateral_entries col)).
    split; [|now apply Hkeys'].
    apply in_map_iff. exists col. split; [reflexivity|].
    apply in_values. now exists k'.
Qed.

End Reload.

(** X6: when every inferred ilk-part of a parsed address book is [SYM]
    or [SYM_SUB] and [from_json] returns a configuration, [to_dict] of
    that configuration returns a dictionary whose keys are the names
    [from_json] read, each mapped to the text of the address built from
    the book's entry: what was not read is dropped, nothing is added. *)
Theorem to_dict_after_from_json (w : Web3) (text : string)
    (conf : Dict.t string) (cfg : Config) :
  json_loads text = Some conf ->
  from_json w text = Ok cfg ->
  simple_names conf = true ->
  exists d,
    to_dict cfg = Ok d
    /\ (forall k, In k (Dict.keys d) <-> referenced conf k)
    /\ (forall k a,
          referenced conf k -> Dict.get conf k = Some a ->
          Dict.get d k = Some (normal a)).
Proof.
  intros Hj Hload Hsimple. unfold from_json in Hload. rewrite Hj in Hload.
  pose proof (reload_entries w conf cfg Hload Hsimple) as HA.
  pose proof (reload_referenced w conf cfg Hload Hsimple) as HB.
  assert (Hfun : functional (all_entries cfg)).
  { intros k v v' H1 H2. apply HA in H1 as [_ H1]. apply HA in H2 as [_ H2].
    cbn [fst snd] in *. congruence. }
  exists (assign [] (all_entries cfg)). split.
  - apply to_dict_wordy. intros col Hcol. apply conventional_wordy.
    apply in_values in Hcol as (k & Hcol).
    destruct (reload_collateral w conf cfg Hload Hsimple k col Hcol)
      as (_ & _ & _ & Hc & _). exact Hc.
  - split.
    + intros k. rewrite keys_assign. cbn [Dict.keys map In]. split.
      * intros [Hk|[]]. apply in_map_iff in Hk as (e & <- & He).
        now apply HA.
      * intros Hk. left. now apply HB.
    + intros k a Hk Ha. apply HB in Hk.
      apply in_map_iff in Hk as ([k' v] & Hk' & He). cbn [fst] in Hk'.
      subst k'. rewrite (get_assign_in [] _ k v Hfun He).
      apply HA in He as [_ He]. cbn [fst snd] in He. rewrite Ha in He.
      cbn [option_map] in He. congruence.
Qed.

(** ** [to_dict] can fail on a configuration [from_json] built *)

Lemma nameless_hyphened (n : string) :
  Str.all is_word n = true ->
  Str.all (fun ch => negb (is_word ch)) (Str.replace "_" "-" n)
  = Str.all is_us n.
Proof.
  induction n as [|c n IH]; [reflexivity|]. cbn [Str.all Str.replace].
  intros H. apply andb_true_iff in H as [W Hn]. rewrite (IH Hn).
  unfold is_us. destruct (Ascii.eqb c "_") eqn:E.
  - reflexivity.
  - now rewrite W.
Qed.

Lemma from_conf_named w conf cfg k col :
  from_conf w conf = Ok cfg ->
  In (k, col) (collaterals cfg) ->
  exists nm,
    In nm (_infer_collaterals_from_addresses (Dict.keys conf))
    /\ k = name (ilk col)
    /\ name (ilk col) = Str.replace "_" "-" (fst nm)
    /\ Str.all is_word (fst nm) = true.
Proof.
  intros H Hin. apply from_conf_inv in H as [_ H].
  rewrite collaterals_of_loop in H. apply loop_ok in H as (_ & H & _).
  destruct (H k col Hin) as [[]|(nm & Hnm & Hof & ->)].
  apply collateral_of_inv in Hof as (Hname & _).
  exists nm. split; [exact Hnm|]. split; [now rewrite Hname|].
  split; [exact Hname|]. destruct nm as [N S].
  apply In_infer in Hnm as (key & _ & Hk).
  now apply infer_key_spec in Hk as (_ & _ & _ & _ & Hw & _).
Qed.

(** X7: [to_dict] raises [AttributeError] on a configuration that
    [from_json] returned exactly when some inferred ilk-part consists of
    underscores only: the ilk name is then made of hyphens, and has no
    symbol. *)
Theorem to_dict_after_from_json_raises (w : Web3) (text : string)
    (conf : Dict.t string) (cfg : Config) :
  json_loads text = Some conf ->
  from_json w text = Ok cfg ->
  (to_dict cfg = Raise AttributeError <->
   exists N S,
     In (N, S) (_infer_collaterals_from_addresses (Dict.keys conf))
     /\ Str.all is_us N = true).
Proof.
  intros Hj H. unfold from_json in H. rewrite Hj in H.
  rewrite to_dict_written. split.
  - destruct (existsb nameless _) eqn:E; [intros _|discriminate].
    apply existsb_exists in E as (col & Hcol & Hn).
    apply in_values in Hcol as (k & Hcol).
    destruct (from_conf_named w conf cfg k col H Hcol)
      as ([N S] & Hnm & _ & Hname & Hw).
    exists N, S. split; [exact Hnm|]. unfold nameless in Hn.
    rewrite Hname in Hn. cbn [fst] in *.
    now rewrite nameless_hyphened in Hn.
  - intros (N & S & Hnm & Hus).
    assert (E : existsb nameless (Dict.values (collaterals cfg)) = true);
      [|now rewrite E].
    pose proof H as H'. apply from_conf_inv in H' as [_ H'].
    rewrite collaterals_of_loop in H'.
    apply loop_ok in H' as (_ & _ & Hkeys & _).
    assert (Hin : In (Str.replace "_" "-" N) (Dict.keys (collaterals cfg))).
    { apply Hkeys. right. now exists (N, S). }
    apply in_map_iff in Hin as ([k col] & Hk & Hin). cbn [fst] in Hk.
    apply existsb_exists. exists col.
    split; [apply in_values; now exists k|].
    destruct (from_conf_named w conf cfg k col H Hin)
      as (nm & Hnm' & Hk' & Hname & Hw).
    unfold nameless. rewrite <- Hk', Hk.
    assert (Hw' : Str.all is_word N = true).
    { apply In_infer in Hnm as (key & _ & Hi).
      now apply infer_key_spec in Hi as (_ & _ & _ & _ & Hw' & _). }
    now rewrite nameless_hyphened.
Qed.

(** ** [active_auctions] and [__repr__] *)

Lemma set_last {V} (d : Dict.t V) k v :
  ~ In k (Dict.keys d) -> Dict.set d k v = (d ++ [(k, v)])%list.
Proof.
  clear json_loads Address_of address_str Address.
  unfold Dict.keys. induction d as [|[k1 v1] d IH]; simpl; intros H.
  - reflexivity.
  - destruct (String.eqb k k1) eqn:E.
    + apply String.eqb_eq in E. subst k1. tauto.
    + rewrite IH; tauto.
Qed.

Lemma flips_fresh {Auctions : Type} (auctions_of : Handle -> Auctions)
    (cols : list Collateral) (acc : Dict.t Auctions) :
  NoDup (Dict.keys acc ++ map (fun col => name (ilk col)) cols)%list ->
  fold_left
    (fun flips collateral =>
       Dict.set flips (name (ilk collateral))
         (auctions_of (flipper collateral)))
    cols acc
  = (acc ++ map (fun col => (name (ilk col), auctions_of (flipper col)))
              cols)%list.
Proof.
  revert acc. induction cols as [|col cols IH]; intros acc H.
  - cbn. now rewrite app_nil_r.
  - cbn [fold_left map] in *. rewrite set_last.
    + rewrite IH.
      * now rewrite <- app_assoc.
      * unfold Dict.keys in *. rewrite map_app, <- app_assoc. exact H.
    + apply NoDup_remove_2 in H. intros Hin. apply H.
      apply in_or_app. now left.
Qed.

(** X8: for a deployment that [DssDeployment.from_json] returned,
    [active_auctions] lists under [flips] one entry for each collateral,
    in the order of the collaterals and under the same name, with the
    auctions of its flipper; [flaps] and [flops] are the auctions of the
    flapper and of the flopper. *)
Theorem active_auctions_of_loaded {Auctions : Type}
    (auctions_of : Handle -> Auctions) (w : Web3) (text : string)
    (d : DssDeployment) :
  DssDeployment_from_json w text = Ok d ->
  flips (active_auctions auctions_of d)
  = map (fun e => (fst e, auctions_of (flipper (snd e)))) (d_collaterals d)
  /\ flaps (active_auctions auctions_of d) = auctions_of (d_flapper d)
  /\ flops (active_auctions auctions_of d) = auctions_of (d_flopper d).
Proof.
  unfold DssDeployment_from_json, from_json.
  destruct (json_loads text) as [conf|]; [|discriminate]. cbn [bind].
  destruct (from_conf w conf) as [cfg|] eqn:E; [|discriminate].
  cbn [bind]. intros H. apply Ok_inj in H. subst d.
  split; [|split; reflexivity].
  unfold active_auctions. cbn [flips d_collaterals DssDeployment_init].
  pose proof E as E'. apply from_conf_inv in E' as [_ E'].
  rewrite collaterals_of_loop in E'.
  apply loop_ok in E' as (_ & _ & _ & Hnd). specialize (Hnd (NoDup_nil _)).
  assert (Hk : forall e, In e (collaterals cfg) ->
                         fst e = name (ilk (snd e))).
  { intros [k col] Hin.
    now destruct (from_conf_named w conf cfg k col E Hin) as (_ & _ & Hk & _). }
  assert (Hn : map (fun col => name (ilk col)) (Dict.values (collaterals cfg))
               = Dict.keys (collaterals cfg)).
  { unfold Dict.values, Dict.keys. rewrite map_map.
    apply map_ext_in. intros e He. symmetry. now apply Hk. }
  rewrite flips_fresh by (cbn [Dict.keys map app]; now rewrite Hn).
  cbn [app]. unfold Dict.values. rewrite map_map.
  apply map_ext_in. intros e He. now rewrite (Hk e He).
Qed.

(** X9: [__repr__] raises [AttributeError] exactly when the ilk name of
    some collateral has no word character, and raises nothing else;
    otherwise it returns the JSON text of the address book between
    [DssDeployment(] and [)]. *)
Theorem repr_attribute_error (d : DssDeployment) :
  (DssDeployment_repr d = Raise AttributeError <->
   exists col, In col (Dict.values (collaterals (d_config d)))
               /\ Str.all (fun ch => negb (is_word ch)) (name (ilk col))
                  = true)
  /\ (forall e, DssDeployment_repr d = Raise e -> e = AttributeError)
  /\ (forall text,
        DssDeployment_repr d = Ok text ->
        exists book,
          to_dict (d_config d) = Ok book
          /\ text = "DssDeployment(" ++ json_dumps book ++ ")").
Proof.
  unfold DssDeployment_repr, to_json. rewrite to_dict_written.
  destruct (existsb nameless _) eqn:E; cbn [bind].
  - apply existsb_exists in E as (col & Hin & Hn).
    split; [split; [intros _; now exists col|reflexivity]|].
    split; [intros e H; congruence|discriminate].
  - split.
    + split; [discriminate|]. intros (col & Hin & Hn).
      assert (existsb nameless (Dict.values (collaterals (d_config d)))
              = true) by (apply existsb_exists; now exists col).
      congruence.
    + split; [discriminate|]. intros text H. apply Ok_inj in H.
      eexists. split; [reflexivity|]. now subst text.
Qed.

(** ** The order of the entries of the address book *)

Lemma get_perm {V} (d1 d2 : Dict.t V) k :
  NoDup (Dict.keys d1) -> Permutation d1 d2 ->
  Dict.get d1 k = Dict.get d2 k.
Proof.
  intros Hnd Hp.
  assert (Hk : Permutation (Dict.keys d1) (Dict.keys d2))
    by (unfold Dict.keys; now apply Permutation_map).
  assert (Hnd2 : NoDup (Dict.keys d2))
    by (eapply Permutation_NoDup; eassumption).
  destruct (Dict.get d1 k) as [v|] eqn:E1; symmetry.
  - apply in_get; [exact Hnd2|]. apply get_some_in in E1.
    eapply Permutation_in; eassumption.
  - apply get_none. apply get_none in E1. intros Hin. apply E1.
    eapply Permutation_in; [apply Permutation_sym; exact Hk|exact Hin].
Qed.

Lemma loop_lookup_some w conf1 conf2 vt names1 names2 tbl1 tbl2 n col :
  (forall nm, In nm names2 ->
              snd nm = symbol_of (fst nm)
              /\ Str.replace "-" "_" (Str.replace "_" "-" (fst nm))
                 = fst nm) ->
  (forall nm, In nm names1 -> In nm names2) ->
  (forall nm, In nm names1 ->
              collateral_of w conf1 vt nm = collateral_of w conf2 vt nm) ->
  collaterals_loop w conf1 vt names1 (Ok []) = Ok tbl1 ->
  collaterals_loop w conf2 vt names2 (Ok []) = Ok tbl2 ->
  Dict.get tbl1 n = Some col -> Dict.get tbl2 n = Some col.
Proof.
  clear json_loads json_dumps address_str.
  intros Hshape Hsub Hext H1 H2 Hget.
  apply loop_ok in H1 as (_ & P1 & _ & _).
  apply loop_ok in H2 as (_ & P2 & K2 & N2). specialize (N2 (NoDup_nil _)).
  apply get_some_in in Hget.
  destruct (P1 n col Hget) as [[]|(nm1 & Hnm1 & Hof1 & Hn1)].
  assert (Hin : In n (Dict.keys tbl2)).
  { apply K2. right. exists nm1. split; [now apply Hsub|exact Hn1]. }
  apply in_map_iff in Hin as ([k col2] & Hk & Hin). cbn [fst] in Hk.
  subst k. destruct (P2 n col2 Hin) as [[]|(nm2 & Hnm2 & Hof2 & Hn2)].
  assert (E : nm1 = nm2).
  { destruct (Hshape nm1 (Hsub nm1 Hnm1)) as (S1 & B1).
    destruct (Hshape nm2 Hnm2) as (S2 & B2).
    destruct nm1 as [N1 s1], nm2 as [N2' s2]. cbn [fst snd] in *.
    assert (N1 = N2') by (rewrite <- B1, <- B2, <- Hn1, <- Hn2; reflexivity).
    subst N2'. now rewrite S1, S2. }
  subst nm2. rewrite (Hext nm1 Hnm1), Hof2 in Hof1.
  apply Ok_inj in Hof1. subst col2. now apply in_get.
Qed.

Lemma loop_lookup w conf1 conf2 vt names1 names2 tbl1 tbl2 :
  (forall nm, In nm names1 ->
              snd nm = symbol_of (fst nm)
              /\ Str.replace "-" "_" (Str.replace "_" "-" (fst nm))
                 = fst nm) ->
  (forall nm, In nm names1 <-> In nm names2) ->
  (forall nm, In nm names1 ->
              collateral_of w conf1 vt nm = collateral_of w conf2 vt nm) ->
  collaterals_loop w conf1 vt names1 (Ok []) = Ok tbl1 ->
  collaterals_loop w conf2 vt names2 (Ok []) = Ok tbl2 ->
  forall n, Dict.get tbl1 n = Dict.get tbl2 n.
Proof.
  clear json_loads json_dumps address_str.
  intros Hshape Hiff Hext H1 H2 n.
  destruct (Dict.get tbl1 n) as [col|] eqn:E1.
  - symmetry.
    apply (loop_lookup_some w conf1 conf2 vt names1 names2 tbl1 tbl2);
      try assumption.
    + intros nm Hnm. apply Hshape. now apply Hiff.
    + intros nm Hnm. now apply Hiff.
  - destruct (Dict.get tbl2 n) as [col|] eqn:E2; [|reflexivity].
    rewrite <- E1.
    apply (loop_lookup_some w conf2 conf1 vt names2 names1 tbl2 tbl1);
      try assumption.
    + intros nm Hnm. now apply Hiff.
    + intros nm Hnm. symmetry. apply Hext. now apply Hiff.
Qed.

Lemma loop_same_names w conf1 conf2 vt names1 names2 tbl1 :
  (forall nm, In nm names2 -> In nm names1) ->
  (forall nm, In nm names1 ->
              collateral_of w conf1 vt nm = collateral_of w conf2 vt nm) ->
  collaterals_loop w conf1 vt names1 (Ok []) = Ok tbl1 ->
  exists tbl2, collaterals_loop w conf2 vt names2 (Ok []) = Ok tbl2.
Proof.
  clear json_loads json_dumps address_str.
  intros Hsub Hext H1. apply loop_ok in H1 as (T1 & _).
  apply loop_total. intros nm Hnm.
  destruct (T1 nm (Hsub nm Hnm)) as (col & Hcol).
  exists col. now rewrite <- (Hext nm (Hsub nm Hnm)).
Qed.

Lemma from_conf_perm w conf1 conf2 :
  NoDup (Dict.keys conf1) -> Permutation conf1 conf2 ->
  match from_conf w conf1, from_conf w conf2 with
  | Ok c1, Ok c2 =>
      fixed_handles c1 = fixed_handles c2
      /\ forall n, Dict.get (collaterals c1) n = Dict.get (collaterals c2) n
  | Raise (KeyError _), Raise (KeyError _) => True
  | _, _ => False
  end.
Proof.
  clear json_loads json_dumps address_str.
  intros Hnd Hp.
  assert (Hg : forall k, Dict.get conf1 k = Dict.get conf2 k)
    by (intros k; now apply get_perm).
  assert (Hk : Permutation (Dict.keys conf1) (Dict.keys conf2))
    by (unfold Dict.keys; now apply Permutation_map).
  set (names1 := _infer_collaterals_from_addresses (Dict.keys conf1)).
  set (names2 := _infer_collaterals_from_addresses (Dict.keys conf2)).
  assert (Hiff : forall nm, In nm names1 <-> In nm names2).
  { intros nm. unfold names1, names2. rewrite !In_infer.
    split; intros (key & Hin & Hi); exists key; (split; [|exact Hi]).
    - eapply Permutation_in; eassumption.
    - eapply Permutation_in; [apply Permutation_sym|]; eassumption. }
  assert (Hshape : forall nm, In nm names1 ->
             snd nm = symbol_of (fst nm)
             /\ Str.replace "-" "_" (Str.replace "_" "-" (fst nm)) = fst nm)
    by (intros nm; apply infer_pair_shape).
  assert (Hext : forall vt nm,
             collateral_of w conf1 vt nm = collateral_of w conf2 vt nm)
    by (intros vt nm; apply collateral_of_ext; intros k _; apply Hg).
  unfold from_conf, getitem. fold names1 names2.
  rewrite !Hg.
  repeat match goal with
         | |- context [Dict.get conf2 ?k] =>
             destruct (Dict.get conf2 k); cbn [bind]; [|exact I]
         end.
  rewrite !collaterals_of_loop.
  match goal with
  | |- context [collaterals_loop w conf1 ?vt names1 (Ok [])] =>
      destruct (collaterals_loop w conf1 vt names1 (Ok [])) as [tbl1|e1]
        eqn:E1;
      destruct (collaterals_loop w conf2 vt names2 (Ok [])) as [tbl2|e2]
        eqn:E2; cbn [bind]
  end.
  - split; [reflexivity|]. cbn [collaterals].
    eapply loop_lookup; [exact Hshape|exact Hiff| |exact E1|exact E2].
    intros nm _. apply Hext.
  - edestruct (loop_same_names w conf1 conf2) as (tbl2 & H2);
      [|intros nm _; apply Hext|exact E1|rewrite E2 in H2; discriminate].
    intros nm. apply Hiff.
  - edestruct (loop_same_names w conf2 conf1) as (tbl1 & H1);
      [|intros nm _; symmetry; apply Hext|exact E2
       |rewrite E1 in H1; discriminate].
    intros nm. apply Hiff.
  - apply loop_raise in E1 as (nm1 & _ & E1).
    apply collateral_of_raise in E1 as (k1 & -> & _).
    apply loop_raise in E2 as (nm2 & _ & E2).
    apply collateral_of_raise in E2 as (k2 & -> & _).
    exact I.
Qed.

(** X10: the order of the entries of the address book changes neither
    whether [from_json] succeeds nor what it builds: two books with the
    same entries, in any order, give the same fixed handles and the same
    collateral under every ilk name, or a [KeyError] both. *)
Theorem from_json_key_order (w : Web3) (text1 text2 : string)
    (conf1 conf2 : Dict.t string) :
  json_loads text1 = Some conf1 ->
  json_loads text2 = Some conf2 ->
  NoDup (Dict.keys conf1) ->
  Permutation conf1 conf2 ->
  (forall c1, from_json w text1 = Ok c1 ->
     exists c2,
       from_json w text2 = Ok c2
       /\ fixed_handles c1 = fixed_handles c2
       /\ forall n,
            Dict.get (collaterals c1) n = Dict.get (collaterals c2) n)
  /\ (forall e, from_json w text1 = Raise e ->
        exists k, from_json w text2 = Raise (KeyError k)).
Proof.
  intros H1 H2 Hnd Hp. unfold from_json. rewrite H1, H2.
  pose proof (from_conf_perm w conf1 conf2 Hnd Hp) as H.
  destruct (from_conf w conf1) as [c1|e1], (from_conf w conf2) as [c2|e2].
  - split; [|discriminate]. intros c Hc. apply Ok_inj in Hc. subst c.
    now exists c2.
  - destruct H.
  - destruct e1; destruct H.
  - split; [discriminate|]. intros e _.
    destruct e1; try destruct H. destruct e2; try destruct H. eauto.
Qed.

(** ** [from_node] on an address file that parses *)

(** X11: when the address file of the network of the node opens and its
    text parses to an address book, [from_node] raises the [KeyError] of
    the first name the book does not have, in the order [from_json]
    reads them, and returns the deployment of the configuration of the
    book when there is none. *)
Theorem from_node_of_book (h : Host) (w : Web3) (text : string)
    (conf : Dict.t string) :
  read_file h
    (path_join (module_dir h)
       ["../config"; network_of (net_version w) ++ "-addresses.json"])
  = Some text ->
  json_loads text = Some conf ->
  match first_missing conf with
  | Some k => from_node h w = Raise (KeyError k)
  | None =>
      exists cfg,
        from_json w text = Ok cfg
        /\ from_node h w = Ok (DssDeployment_init w cfg)
  end.
Proof.
  intros Hfile Hjson. unfold from_node, from_network, open_read.
  cbv zeta. rewrite Hfile. cbn [bind].
  unfold DssDeployment_from_json, from_json. rewrite Hjson.
  pose proof (from_conf_first_missing w conf) as H.
  destruct (first_missing conf) as [k|].
  - now rewrite H.
  - destruct H as (cfg & H). exists cfg. now rewrite H.
Qed.

(** ** The suffix [to_dict] writes for a collateral [from_json] built *)















End Deployment.

(** ** The reference codec *)

Lemma set_fresh {V} (d : Dict.t V) k v :
  ~ In k (Dict.keys d) -> Dict.set d k v = (d ++ [(k, v)])%list.
Proof.
  unfold Dict.keys. induction d as [|[k1 v1] d IH]; simpl; intros H.
  - reflexivity.
  - destruct (String.eqb k k1) eqn:E.
    + apply String.eqb_eq in E. subst k1. tauto.
    + rewrite IH; tauto.
Qed.

Lemma assign_fresh (d es : Dict.t string) :
  NoDup (Dict.keys (app d es)) -> assign d es = app d es.
Proof.
  revert d. induction es as [|[k v] es IH]; intros d H; simpl.
  - now rewrite app_nil_r.
  - unfold Dict.keys in H. rewrite map_app in H. simpl in H.
    pose proof (NoDup_remove_2 _ _ _ H) as Hk.
    rewrite set_fresh.
    + change (assign (app d [(k, v)]) es = app d ((k, v) :: es)).
      assert (E : app d ((k, v) :: es) = app (app d [(k, v)]) es)
        by now rewrite <- app_assoc.
      rewrite E. apply IH. rewrite <- E.
      unfold Dict.keys. rewrite map_app. exact H.
    + intros Hin. apply Hk. apply in_or_app. now left.
Qed.

Import RefJson.

Lemma read_string_escape (s r : string) :
  read_string (escape s ++ String dquote r) = Some (s, r).
Proof.
  induction s as [|c s IH]; [reflexivity|]. cbn [escape].
  destruct (special c) eqn:E.
  - cbn [append read_string]. rewrite E, IH. reflexivity.
  - cbn [append read_string]. unfold special in E.
    apply orb_false_iff in E as [E1 E2]. now rewrite E1, E2, IH.
Qed.

Lemma read_quoted_quote (s r : string) :
  read_quoted (quote s ++ r) = Some (s, r).
Proof.
  unfold quote. cbn [append read_quoted]. rewrite append_assoc.
  apply read_string_escape.
Qed.

Lemma expect_app (p s : string) : expect p (p ++ s) = Some s.
Proof.
  induction p as [|a p IH]; [reflexivity|]. simpl.
  now rewrite Ascii.eqb_refl.
Qed.

Lemma read_item_item (e : string * string) (r : string) :
  read_item (item e ++ r) = Some (e, r).
Proof.
  unfold read_item, item. rewrite !append_assoc, read_quoted_quote.
  rewrite expect_app, read_quoted_quote. now destruct e.
Qed.

Lemma read_items_items (d : list (string * string)) (fuel : nat) :
  d <> [] -> length d <= fuel ->
  read_items fuel (items d ++ "}") = Some d.
Proof.
  revert fuel. induction d as [|e d IH]; intros fuel Hne Hf; [congruence|].
  destruct fuel as [|fuel]; [simpl in Hf; lia|]. cbn [read_items items].
  destruct d as [|e' d].
  - rewrite read_item_item. reflexivity.
  - rewrite !append_assoc, read_item_item.
    change (", " ++ items (e' :: d) ++ "}")
      with (String "," (String " " (items (e' :: d) ++ "}"))).
    cbn [String.eqb expect Ascii.eqb Bool.eqb]. cbn.
    rewrite IH; [reflexivity|discriminate|simpl in *; lia].
Qed.

Lemma length_app (a b : string) :
  String.length (a ++ b) = String.length a + String.length b.
Proof. induction a; simpl; congruence. Qed.

Lemma length_items (d : list (string * string)) :
  length d <= String.length (items d).
Proof.
  induction d as [|e d IH]; [simpl; lia|]. cbn [items].
  destruct d as [|e' d].
  - unfold item, quote. simpl. lia.
  - rewrite !length_app. unfold item at 1, quote. simpl in *. lia.
Qed.

(** The reference codec loads back what it dumps. *)
Lemma json_loads_dumps_ref (d : Dict.t string) :
  NoDup (Dict.keys d) -> loads (dumps d) = Some d.
Proof.
  intros H. unfold dumps, loads. cbn [append]. 
  change (Ascii.eqb "{" "{") with true. cbv iota.
  destruct d as [|e d]; [reflexivity|].
  assert (E : String.eqb (items (e :: d) ++ "}") "}" = false).
  { cbn [items]. unfold item, quote. now destruct d. }
  rewrite E, read_items_items.
  - now rewrite (assign_fresh [] (e :: d)).
  - discriminate.
  - rewrite length_app. pose proof (length_items (e :: d)). lia.
Qed.

(** ** The claims on sample address books

    Addresses are texts, built from and giving back their text as it is;
    JSON is the reference codec. *)

Abbreviation as_text := (fun s : string => s) (only parsing).
Abbreviation sample_round_trip :=
  (round_trip string as_text as_text loads dumps sample_web3)
  (only parsing).
Abbreviation sample_from_json :=
  (from_json string as_text loads sample_web3) (only parsing).
Abbreviation sample_to_dict := (to_dict string as_text) (only parsing).

Lemma round_trip_well_formed_witness :
  well_formed string as_text (sample_book string as_text) = true
  /\ exists c',
       sample_round_trip (sample_book string as_text) = Ok c'
       /\ equivalent string (sample_book string as_text) c'.
Proof.
  split; [reflexivity|].
  apply (round_trip_well_formed string as_text as_text loads dumps
           (fun a => eq_refl) json_loads_dumps_ref).
  reflexivity.
Defined.

(** C1, as stated, fails on a configuration with an ilk without a price
    feed: the round trip raises [KeyError('PIP_ETH')]. *)
Lemma round_trip_no_feed_counterexample :
  sample_round_trip (sample_no_feed string as_text)
  = Raise (KeyError "PIP_ETH")
  /\ ~ exists c',
         sample_round_trip (sample_no_feed string as_text) = Ok c'
         /\ equivalent string (sample_no_feed string as_text) c'.
Proof.
  assert (E : sample_round_trip (sample_no_feed string as_text)
              = Raise (KeyError "PIP_ETH")) by (vm_compute; reflexivity).
  split; [exact E|]. intros (c' & H & _). rewrite E in H. discriminate H.
Qed.

Lemma to_dict_book_witness :
  exists d,
    sample_to_dict (sample_book string as_text) = Ok d
    /\ (forall k v,
          In (k, v) (all_entries string as_text (sample_book string as_text))
          -> Dict.get d k = Some v)
    /\ (forall k,
          In k (Dict.keys d) ->
          In k (map fst
                  (all_entries string as_text (sample_book string as_text))))
    /\ NoDup (Dict.keys d).
Proof.
  apply (to_dict_book string as_text (sample_book string as_text));
    reflexivity.
Defined.

(** C2, as stated, fails on two ilks of one token with different price
    feeds: [PIP_ETH] is not mapped to the price feed of [ETH-A]. *)
Lemma to_dict_two_feeds_counterexample :
  exists d,
    sample_to_dict (sample_two_feeds string as_text) = Ok d
    /\ In ("PIP_ETH", "0xb0")
         (all_entries string as_text (sample_two_feeds string as_text))
    /\ Dict.get d "PIP_ETH" = Some "0xb1"
    /\ Dict.get d "PIP_ETH" <> Some "0xb0".
Proof.
  eexists. split; [vm_compute; reflexivity|].
  split; [vm_compute; tauto|]. split; [reflexivity|discriminate].
Qed.

Lemma from_json_quadruple_witness :
  let text :=
    dumps (assign [] (all_entries string as_text
                        (sample_book string as_text))) in
  exists cfg,
    sample_from_json text = Ok cfg
    /\ exists conf,
         loads text = Some conf
         /\ forall k col,
              In (k, col) (collaterals string cfg) ->
              exists N S,
                In (N, S)
                  (_infer_collaterals_from_addresses (Dict.keys conf))
                /\ k = Str.replace "_" "-" N
                /\ name (ilk string col) = k
                /\ quadruple_of string as_text conf (N, S) col.
Proof.
  intros text. eexists. split; [vm_compute; reflexivity|].
  apply (from_json_quadruple string as_text loads sample_web3 text).
  vm_compute. reflexivity.
Defined.

Lemma from_json_missing_key_witness :
  let short := [("MCD_PAUSE", "0x01"); ("MCD_FLIP_ETH_A", "0xf1")] in
  let full :=
    assign [] (all_entries string as_text (sample_book string as_text)) in
  (exists k',
      sample_from_json (dumps short) = Raise (KeyError k')
      /\ Dict.get short k' = None)
  /\ exists cfg, sample_from_json (dumps full) = Ok cfg.
Proof.
  intros short full. split.
  - apply (proj1 (from_json_missing_key string as_text loads sample_web3
                    (dumps short) short eq_refl)).
    exists "PIP_ETH". split; [|reflexivity].
    right. exists "ETH_A", "ETH". split; [vm_compute; tauto|tauto].
  - apply (proj2 (from_json_missing_key string as_text loads sample_web3
                    (dumps full) full eq_refl)).
    intros k [H|(nm & Hin & Hk)].
    + unfold fixed_keys in H. cbn [In] in H.
      repeat (destruct H as [<-|H]; [vm_compute; discriminate|]).
      destruct H.
    + vm_compute in Hin.
      repeat (destruct Hin as [<-|Hin];
              [unfold collateral_keys in Hk; cbn [fst snd In] in Hk;
               repeat (destruct Hk as [<-|Hk]; [vm_compute; discriminate|]);
               destruct Hk|]).
      destruct Hin.
Defined.

Lemma collaterals_by_pattern_witness :
  let conf :=
    assign [] (all_entries string as_text (sample_book string as_text)) in
  _infer_collaterals_from_addresses (Dict.keys conf)
  = flat_map contribution (Dict.keys conf)
  /\ exists cfg,
       from_conf string as_text sample_web3 conf = Ok cfg
       /\ NoDup (Dict.keys (collaterals string cfg))
       /\ forall k,
            In k (Dict.keys (collaterals string cfg)) <->
            exists nm,
              In nm (_infer_collaterals_from_addresses (Dict.keys conf))
              /\ k = Str.replace "_" "-" (fst nm).
Proof.
  intros conf. split.
  - exact (proj1 (collaterals_by_pattern string as_text) (Dict.keys conf)).
  - eexists. split; [vm_compute; reflexivity|].
    refine (let H := proj2 (proj2 (proj2
                       (collaterals_by_pattern string as_text)))
                       sample_web3 conf _ _ in
            conj (proj1 H) (proj1 (proj2 H))).
    vm_compute. reflexivity.
Defined.

(** C5, as stated, fails on the key [MCD_FLIP_A_]: its suffix has an
    underscore, and the whole suffix is both the ilk-part and the symbol. *)
Lemma infer_trailing_underscore_counterexample :
  mem "_" "A_" = true
  /\ _infer_collaterals_from_addresses ["MCD_FLIP_A_"] = [("A_", "A_")].
Proof. split; vm_compute; reflexivity. Qed.

Lemma round_trip_without_feed_witness :
  exists d,
    sample_to_dict (sample_no_feed string as_text) = Ok d
    /\ Dict.get d ("PIP_" ++ "ETH") = None
    /\ referenced d ("PIP_" ++ "ETH")
    /\ exists k,
         sample_round_trip (sample_no_feed string as_text)
         = Raise (KeyError k).
Proof.
  apply (round_trip_without_feed string as_text as_text loads dumps
           json_loads_dumps_ref sample_web3
           (sample_no_feed string as_text) "ETH");
    reflexivity.
Defined.

(** C8, as stated, fails on two ilks of one token of which the first has
    a price feed: the second has none, and the round trip returns a
    configuration. *)
Lemma round_trip_shared_feed_counterexample :
  (exists col,
      In col (Dict.values
                (collaterals string (sample_shared_feed string as_text)))
      /\ pip string col = None)
  /\ exists c',
       sample_round_trip (sample_shared_feed string as_text) = Ok c'.
Proof.
  split.
  - eexists. split; [right; left; reflexivity|reflexivity].
  - eexists. vm_compute. reflexivity.
Qed.

Lemma greedy_symbol_witness :
  _infer_collaterals_from_addresses ["MCD_FLIP_A_B_C"]
  = [("A_B_C", "A_B")].
Proof.
  apply (greedy_symbol "A_B" "C"); [discriminate|reflexivity|discriminate
                                   |reflexivity|reflexivity].
Defined.

(** C9, as stated, fails on the key [MCD_FLIP_A_B_]: its suffix up to the
    last underscore is [A_B], and the inferred symbol is [A]. *)
Lemma greedy_symbol_counterexample :
  Str.all is_word "A_B_" = true
  /\ mem "_" "A_B_" = true
  /\ before_last "_" "A_B_" = "A_B"
  /\ _infer_collaterals_from_addresses ["MCD_FLIP_A_B_"] = [("A_B_", "A")].
Proof. repeat split; vm_compute; reflexivity. Qed.



(** ** Instances of the further properties *)

(** The address book of [sample_book]. *)
Abbreviation sample_full :=
  (assign [] (all_entries string as_text (sample_book string as_text)))
  (only parsing).

(** An address book whose only collateral has the ilk-part [__]. *)
Abbreviation sample_underscores :=
  (fixed_dict string as_text (sample_config string as_text [])
     ++ [("__", "0xe0"); ("MCD_JOIN___", "0xa1"); ("PIP___", "0xb0");
         ("MCD_FLIP___", "0xf1")])%list
  (only parsing).

Lemma to_dict_last_writer_witness :
  let c := sample_two_feeds string as_text in
  exists d,
    sample_to_dict c = Ok d
    /\ NoDup (Dict.keys d)
    /\ (forall k,
          In k (Dict.keys d) <-> In k (map fst (written string as_text c)))
    /\ (forall k, Dict.get d k = last_written (written string as_text c) k)
    /\ Dict.get d "PIP_ETH" = Some "0xb1".
Proof.
  intros c. eexists. split; [vm_compute; reflexivity|].
  match goal with
  | |- NoDup (Dict.keys ?d) /\ _ =>
      destruct (to_dict_last_writer string as_text c d) as (H1 & H2 & H3);
      [vm_compute; reflexivity|]
  end.
  split; [exact H1|]. split; [exact H2|]. split; [exact H3|].
  vm_compute. reflexivity.
Defined.

Lemma from_json_first_missing_key_witness :
  let short := [("MCD_PAUSE", "0x01"); ("MCD_FLIP_ETH_A", "0xf1")] in
  sample_from_json (dumps short) = Raise (KeyError "MCD_VAT")
  /\ exists cfg, sample_from_json (dumps sample_full) = Ok cfg.
Proof.
  intros short. split.
  - exact (from_json_first_missing_key string as_text loads sample_web3
             (dumps short) short eq_refl).
  - exact (from_json_first_missing_key string as_text loads sample_web3
             (dumps sample_full) sample_full eq_refl).
Defined.

Lemma from_json_classes_witness :
  let text := dumps sample_full in
  exists cfg,
    sample_from_json text = Ok cfg
    /\ exists conf,
         loads text = Some conf
         /\ map (fun e => class string (snd e)) (fixed_handles string cfg)
            = fixed_classes
         /\ (forall k h,
               In (k, h) (fixed_handles string cfg) ->
               web3 string h = sample_web3)
         /\ forall k col,
              In (k, col) (collaterals string cfg) ->
              exists N S,
                In (N, S)
                  (_infer_collaterals_from_addresses (Dict.keys conf))
                /\ k = Str.replace "_" "-" N
                /\ class string (gem string col) = gem_class S
                /\ class string (adapter string col) = adapter_class S
                /\ class string (flipper string col) = Flipper
                /\ option_map (class string) (pip string col)
                   = Some (pip_class (net_version sample_web3) S)
                /\ web3 string (gem string col) = sample_web3
                /\ web3 string (adapter string col) = sample_web3
                /\ web3 string (flipper string col) = sample_web3
                /\ option_map (web3 string) (pip string col)
                   = Some sample_web3.
Proof.
  intros text. eexists. split; [vm_compute; reflexivity|].
  apply (from_json_classes string as_text loads sample_web3 text).
  vm_compute. reflexivity.
Defined.

Lemma from_json_ignores_unread_witness :
  sample_from_json (dumps (Dict.set sample_full "MULTICALL" "0xcc"))
  = sample_from_json (dumps sample_full).
Proof.
  apply (from_json_ignores_unread string as_text loads sample_web3
           (dumps sample_full)
           (dumps (Dict.set sample_full "MULTICALL" "0xcc"))
           sample_full "MULTICALL" "0xcc").
  - vm_compute. reflexivity.
  - vm_compute. reflexivity.
  - right. vm_compute. reflexivity.
  - intros [H|(nm & Hin & Hk)].
    + unfold fixed_keys in H. cbn [In] in H.
      repeat (destruct H as [H|H]; [discriminate H|]). destruct H.
    + vm_compute in Hin.
      repeat (destruct Hin as [<-|Hin];
              [unfold collateral_keys in Hk; cbn [fst snd In] in Hk;
               repeat (destruct Hk as [Hk|Hk]; [discriminate Hk|]);
               destruct Hk|]).
      destruct Hin.
Defined.

Lemma to_dict_after_from_json_witness :
  let text := dumps sample_full in
  exists cfg,
    sample_from_json text = Ok cfg
    /\ exists d,
         sample_to_dict cfg = Ok d
         /\ (forall k, In k (Dict.keys d) <-> referenced sample_full k)
         /\ (forall k a,
               referenced sample_full k ->
               Dict.get sample_full k = Some a ->
               Dict.get d k = Some (normal string as_text as_text a)).
Proof.
  intros text. eexists. split; [vm_compute; reflexivity|].
  apply (to_dict_after_from_json string as_text as_text loads sample_web3
           text sample_full).
  - vm_compute. reflexivity.
  - vm_compute. reflexivity.
  - vm_compute. reflexivity.
Defined.

Lemma to_dict_after_from_json_raises_witness :
  exists cfg,
    sample_from_json (dumps sample_underscores) = Ok cfg
    /\ sample_to_dict cfg = Raise AttributeError.
Proof.
  eexists. split; [vm_compute; reflexivity|].
  refine (proj2 (to_dict_after_from_json_raises string as_text as_text
                   loads sample_web3 (dumps sample_underscores)
                   sample_underscores _ _ _) _).
  - vm_compute. reflexivity.
  - vm_compute. reflexivity.
  - exists "__", "__". split; [vm_compute; tauto|reflexivity].
Defined.

Lemma active_auctions_of_loaded_witness :
  let auctions_of := fun h : Handle string => address string h in
  exists d,
    DssDeployment_from_json string as_text loads sample_web3
      (dumps sample_full) = Ok d
    /\ flips string (active_auctions string string auctions_of d)
       = map (fun e => (fst e, auctions_of (flipper string (snd e))))
           (d_collaterals string d)
    /\ flaps string (active_auctions string string auctions_of d)
       = auctions_of (d_flapper string d)
    /\ flops string (active_auctions string string auctions_of d)
       = auctions_of (d_flopper string d)
    /\ Dict.keys (flips string (active_auctions string string auctions_of d))
       = ["ETH-A"; "ETH-B"; "SAI"].
Proof.
  intros auctions_of. eexists. split; [vm_compute; reflexivity|].
  match goal with
  | |- flips _ (active_auctions _ _ _ ?d) = _ /\ _ =>
      destruct (active_auctions_of_loaded string as_text loads auctions_of
                  sample_web3 (dumps sample_full) d) as (H1 & H2 & H3);
      [vm_compute; reflexivity|]
  end.
  split; [exact H1|]. split; [exact H2|]. split; [exact H3|].
  vm_compute. reflexivity.
Defined.

Lemma from_json_key_order_witness :
  exists c1,
    sample_from_json (dumps sample_full) = Ok c1
    /\ exists c2,
         sample_from_json (dumps (rev sample_full)) = Ok c2
         /\ fixed_handles string c1 = fixed_handles string c2
         /\ forall n,
              Dict.get (collaterals string c1) n
              = Dict.get (collaterals string c2) n.
Proof.
  eexists. split; [vm_compute; reflexivity|].
  refine (proj1 (from_json_key_order string as_text loads sample_web3
                   (dumps sample_full) (dumps (rev sample_full))
                   sample_full (rev sample_full) _ _ _
                   (Permutation_rev _)) _ _).
  - vm_compute. reflexivity.
  - vm_compute. reflexivity.
  - apply nodupb_sound. vm_compute. reflexivity.
  - vm_compute. reflexivity.
Defined.

Lemma from_node_of_book_witness :
  let host :=
    {| module_dir := "/pkg/pymaker";
       read_file := fun path =>
         if String.eqb path "/pkg/pymaker/../config/mainnet-addresses.json"
         then Some (dumps sample_full) else None |} in
  exists cfg,
    sample_from_json (dumps sample_full) = Ok cfg
    /\ from_node string as_text loads host sample_web3
       = Ok (DssDeployment_init string sample_web3 cfg).
Proof.
  intros host.
  exact (from_node_of_book string as_text loads host sample_web3
           (dumps sample_full) sample_full eq_refl eq_refl).
Defined.
